(** * Linear regression from scratch with NumPy: model and verification

    The notebook [notebooks/linear_regression_numpy.ipynb] loads a CSV file,
    normalises the feature matrix, prepends a bias column, solves the normal
    equation, and reports MSE, R² and one prediction.

    The notebook's functions are embedded once, generically over the
    floating-point operations they use ([FloatOps]).  Two instances run them:

    - [binary64]: IEEE-754 double precision (Rocq's primitive floats), the
      arithmetic the notebook really computes with; it evaluates the code on
      concrete inputs;
    - [xreal]: exact arithmetic, the real numbers extended with the IEEE special
      values (infinities and NaN) that division by zero and square roots of
      negative numbers produce.  Finite operations neither round nor overflow,
      and zero carries no sign.  The general theorems "in exact arithmetic"
      are proved over this instance.

    NumPy's exceptions are values of [exn]; code that can raise returns a
    [result]. *)

From Stdlib Require Import Floats.PrimFloat Numbers.Cyclic.Int63.Uint63.
From Stdlib Require Import Ascii String.
From Stdlib Require Import List Bool Arith Lia ZArith Reals Lra Psatz.
Import ListNotations.

(** ** Exceptions *)

Inductive exn : Set :=
| ValueError
| IndexError
| LinAlgError
| FileNotFoundError.

Inductive result (A : Type) : Type :=
| Ok (a : A)
| Raise (e : exn).

Arguments Ok {A} a.
Arguments Raise {A} e.

Definition bind {A B : Type} (c : result A) (k : A -> result B) : result B :=
  match c with
  | Ok a => k a
  | Raise e => Raise e
  end.

Notation "x <- c ;; k" := (bind c (fun x => k))
  (at level 61, c at next level, right associativity).

(** ** Floating-point operations used by the notebook *)

Class FloatOps (F : Type) : Type := {
  f_zero : F;
  f_one : F;
  f_nan : F;
  f_add : F -> F -> F;
  f_sub : F -> F -> F;
  f_mul : F -> F -> F;
  f_div : F -> F -> F;
  f_sqrt : F -> F;
  (* an integer count (a shape entry) converted to a float *)
  f_of_nat : nat -> F
}.

(** ** Arrays *)

(** A one-dimensional array is a list.  A two-dimensional array of shape
    [(length rows, ncols)] keeps its column count, so that shapes with zero
    rows are represented. *)
Record matrix (F : Type) : Type := Matrix {
  ncols : nat;
  rows : list (list F)
}.

Arguments Matrix {F} ncols rows.
Arguments ncols {F} m.
Arguments rows {F} m.

Definition nrows {F : Type} (X : matrix F) : nat := length (rows X).

(** Every row has [ncols] entries: the arrays NumPy can build. *)
Definition well_formed {F : Type} (X : matrix F) : Prop :=
  Forall (fun r => length r = ncols X) (rows X).

(** What [np.genfromtxt] can return once squeezed: 0-, 1- or 2-dimensional. *)
Inductive ndarray (F : Type) : Type :=
| A0 (x : F)
| A1 (v : list F)
| A2 (X : matrix F).

Arguments A0 {F} x.
Arguments A1 {F} v.
Arguments A2 {F} X.

Fixpoint zip_with {A B C : Type} (f : A -> B -> C) (u : list A) (v : list B) : list C :=
  match u, v with
  | a :: u', b :: v' => f a b :: zip_with f u' v'
  | _, _ => []
  end.

(** The globals the training cells leave behind. *)
Record fitted (F : Type) : Type := Fitted {
  fit_mean : list F;
  fit_std : list F;
  fit_X_bias : matrix F;
  fit_theta : list F;
  fit_y_pred : list F;
  fit_mse : F;
  fit_r2 : F
}.

Arguments Fitted {F} fit_mean fit_std fit_X_bias fit_theta fit_y_pred fit_mse fit_r2.
Arguments fit_mean {F} f.
Arguments fit_std {F} f.
Arguments fit_X_bias {F} f.
Arguments fit_theta {F} f.
Arguments fit_y_pred {F} f.
Arguments fit_mse {F} f.
Arguments fit_r2 {F} f.

(** ** The NumPy operations the notebook calls *)

Section NumPy.
Context {F : Type} `{FloatOps F}.

(** [np.sum] of a 1-D array, the terms added from the first to the last.
    NumPy adds arrays of eight elements or more in pairwise blocks: in
    binary64 this definition is the code's sum only for shorter arrays (the
    ones evaluated below have at most three elements) and for the reductions
    along axis 0, which add row after row.  The order does not matter in
    exact arithmetic. *)
Definition np_sum (v : list F) : F := fold_left f_add v f_zero.

(** [np.mean] of a 1-D array: the sum divided by the element count. *)
Definition np_mean (v : list F) : F := f_div (np_sum v) (f_of_nat (length v)).

(** [x ** 2], elementwise. *)
Definition square (v : list F) : list F := map (fun x => f_mul x x) v.

(** [np.var] with ddof = 0: the mean of the squared deviations. *)
Definition np_var (v : list F) : F :=
  let m := np_mean v in
  np_mean (square (map (fun x => f_sub x m) v)).

(** [np.std] with ddof = 0. *)
Definition np_std (v : list F) : F := f_sqrt (np_var v).

(** [X[:, j]]. *)
Definition column (j : nat) (X : matrix F) : list F :=
  map (fun r => nth j r f_nan) (rows X).

(** [X[i][j]]; the default is returned outside the array only. *)
Definition entry (X : matrix F) (i j : nat) : F :=
  nth j (nth i (rows X) []) f_nan.

(** [np.mean(X, axis=0)] and [np.std(X, axis=0)]. *)
Definition np_mean_axis0 (X : matrix F) : list F :=
  map (fun j => np_mean (column j X)) (seq 0 (ncols X)).

Definition np_std_axis0 (X : matrix F) : list F :=
  map (fun j => np_std (column j X)) (seq 0 (ncols X)).

(** Broadcasting of a binary operation over two 1-D arrays: equal lengths
    combine elementwise, a length-1 operand is stretched, anything else
    raises. *)
Definition broadcast1 (op : F -> F -> F) (u v : list F) : result (list F) :=
  if length u =? length v then Ok (zip_with op u v)
  else match u, v with
       | [a], _ => Ok (map (op a) v)
       | _, [b] => Ok (map (fun a => op a b) u)
       | _, _ => Raise ValueError
       end.

(** Broadcasting of a binary operation over a 2-D array of shape (R, C) and
    a 1-D array of shape (C',): the trailing dimensions must be equal or one
    of them must be 1. *)
Definition broadcast21 (op : F -> F -> F) (X : matrix F) (v : list F)
  : result (matrix F) :=
  if ncols X =? length v then
    Ok (Matrix (ncols X) (map (fun r => zip_with op r v) (rows X)))
  else match v with
       | [b] => Ok (Matrix (ncols X) (map (map (fun a => op a b)) (rows X)))
       | _ =>
         if ncols X =? 1 then
           Ok (Matrix (length v)
                 (map (fun r => map (op (nth 0 r f_nan)) v) (rows X)))
         else Raise ValueError
       end.

(** [np.ones(n)]. *)
Definition np_ones (n : nat) : list F := repeat f_one n.

(** [np.c_[v, X]] for a 1-D [v] and a 2-D [X]: [v] becomes a column, placed
    before the columns of [X]; the row counts must agree. *)
Definition np_c_ (v : list F) (X : matrix F) : result (matrix F) :=
  if length v =? nrows X then
    Ok (Matrix (S (ncols X)) (zip_with cons v (rows X)))
  else Raise ValueError.

(** [X.T]. *)
Definition transpose (X : matrix F) : matrix F :=
  Matrix (nrows X) (map (fun j => column j X) (seq 0 (ncols X))).

(** The inner product behind [@]: every product rounded, the products added
    from the first to the last.  NumPy hands [@] to BLAS, which may fuse a
    multiplication with an addition and add in another order: in binary64
    this definition is the code's product only where every product and sum
    is exact (the evaluations below); the theorems on products are stated in
    exact arithmetic, where the order does not matter. *)
Definition dot (u v : list F) : F := np_sum (zip_with f_mul u v).

(** [A @ B] for two 2-D arrays. *)
Definition matmul (A B : matrix F) : result (matrix F) :=
  if ncols A =? nrows B then
    Ok (Matrix (ncols B)
          (map (fun a => map (fun j => dot a (column j B)) (seq 0 (ncols B)))
               (rows A)))
  else Raise ValueError.

(** [A @ v] for a 2-D array and a 1-D array. *)
Definition matvec (A : matrix F) (v : list F) : result (list F) :=
  if ncols A =? length v then Ok (map (fun a => dot a v) (rows A))
  else Raise ValueError.

(** ** The notebook's functions *)

(** [[
def normalize(X):
    mean = np.mean(X, axis=0)
    std = np.std(X, axis=0)
    return (X - mean) / std, mean, std
]] *)
Definition normalize (X : matrix F) : result (matrix F * list F * list F) :=
  let mean := np_mean_axis0 X in
  let std := np_std_axis0 X in
  centred <- broadcast21 f_sub X mean ;;
  X_normalized <- broadcast21 f_div centred std ;;
  Ok (X_normalized, mean, std).

(** [[
def add_bias(X):
    return np.c_[np.ones(X.shape[0]), X]
]] *)
Definition add_bias (X : matrix F) : result (matrix F) :=
  np_c_ (np_ones (nrows X)) X.

(** [[
def normal_equation(X, y):
    return np.linalg.inv(X.T @ X) @ X.T @ y
]]
    [np.linalg.inv] is NumPy's (LAPACK); it is the parameter [linalg_inv].
    [@] associates to the left. *)
Definition normal_equation (linalg_inv : matrix F -> result (matrix F))
  (X : matrix F) (y : list F) : result (list F) :=
  gram <- matmul (transpose X) X ;;
  gram_inv <- linalg_inv gram ;;
  P <- matmul gram_inv (transpose X) ;;
  matvec P y.

(** [[
def mean_squared_error(y_true, y_pred):
    return np.mean((y_true - y_pred) ** 2)
]] *)
Definition mean_squared_error (y_true y_pred : list F) : result F :=
  d <- broadcast1 f_sub y_true y_pred ;;
  Ok (np_mean (square d)).

(** [[
def r2_score(y_true, y_pred):
    ss_res = np.sum((y_true - y_pred) ** 2)
    ss_tot = np.sum((y_true - np.mean(y_true)) ** 2)
    return 1 - (ss_res / ss_tot)
]] *)
Definition r2_score (y_true y_pred : list F) : result F :=
  d <- broadcast1 f_sub y_true y_pred ;;
  let ss_res := np_sum (square d) in
  let m := np_mean y_true in
  let ss_tot := np_sum (square (map (fun x => f_sub x m) y_true)) in
  Ok (f_sub f_one (f_div ss_res ss_tot)).

(** The prediction cell, for a new 2-D array [new_house] of one row:
[[
new_house_norm = (new_house - mean) / std
new_house_bias = add_bias(new_house_norm)
predicted_price = new_house_bias @ theta
... predicted_price[0] ...
]] *)
Definition predict (mean std theta : list F) (new_house : matrix F) : result F :=
  centred <- broadcast21 f_sub new_house mean ;;
  new_house_norm <- broadcast21 f_div centred std ;;
  new_house_bias <- add_bias new_house_norm ;;
  predicted_price <- matvec new_house_bias theta ;;
  match predicted_price with
  | p :: _ => Ok p
  | [] => Raise IndexError
  end.

(** The training cells, in the order the notebook runs them:
[[
X_norm, mean, std = normalize(X)
X_bias = add_bias(X_norm)
theta = normal_equation(X_bias, y)
y_pred = X_bias @ theta
mse = mean_squared_error(y, y_pred)
r2 = r2_score(y, y_pred)
]] *)
Definition train (linalg_inv : matrix F -> result (matrix F))
  (X : matrix F) (y : list F) : result (fitted F) :=
  normalized <- normalize X ;;
  let '(X_norm, mean, std) := normalized in
  X_bias <- add_bias X_norm ;;
  theta <- normal_equation linalg_inv X_bias y ;;
  y_pred <- matvec X_bias theta ;;
  mse <- mean_squared_error y y_pred ;;
  r2 <- r2_score y y_pred ;;
  Ok (Fitted mean std X_bias theta y_pred mse r2).

End NumPy.

(** ** The data-loading cell

[[
data = np.genfromtxt("../data/housing.csv", delimiter=",", skip_header=1)
X = data[:, :-1]
y = data[:, -1]
]]
    [np.genfromtxt] is NumPy's; it is modelled after its documented
    behaviour with the defaults the call leaves in place ([comments='#'],
    [dtype=float], [loose=True], [invalid_raise=True], [ndmin=0]).  A file is
    its list of lines, without line terminators. *)

Definition filesystem : Type := string -> option (list string).

(** [s.split(c)[0]]: the part of [s] before the first [c]. *)
Fixpoint before (c : ascii) (s : string) : string :=
  match s with
  | EmptyString => EmptyString
  | String a s' => if Ascii.eqb a c then EmptyString else String a (before c s')
  end.

Fixpoint lstrip (p : ascii -> bool) (s : string) : string :=
  match s with
  | EmptyString => EmptyString
  | String a s' => if p a then lstrip p s' else s
  end.

Fixpoint rstrip (p : ascii -> bool) (s : string) : string :=
  match s with
  | EmptyString => EmptyString
  | String a s' =>
    match rstrip p s' with
    | EmptyString => if p a then EmptyString else String a EmptyString
    | t => String a t
    end
  end.

(** The characters of [" \r\n"]. *)
Definition blank (a : ascii) : bool :=
  Ascii.eqb a " " || Ascii.eqb a "013" || Ascii.eqb a "010".

(** [s.split(d)] for a one-character delimiter. *)
Fixpoint split (d : ascii) (s : string) : list string :=
  match s with
  | EmptyString => [EmptyString]
  | String a s' =>
    if Ascii.eqb a d then EmptyString :: split d s'
    else match split d s' with
         | w :: ws => String a w :: ws
         | [] => [String a EmptyString]
         end
  end.

(** [LineSplitter._delimited_splitter]: drop the comment, strip, and split
    at the delimiter; a blank line has no field. *)
Definition split_line (line : string) : list string :=
  let line := rstrip blank (lstrip blank (before "#" line)) in
  match line with
  | EmptyString => []
  | _ => split "," line
  end.

Definition has_fields (r : list string) : bool :=
  match r with
  | [] => false
  | _ :: _ => true
  end.

Section Loader.
Context {F : Type} `{FloatOps F}.

(** Python's [float(s)]: [None] stands for its [ValueError]. *)
Variable py_float : string -> option F.

(** [StringConverter._loose_call]: a field that does not convert becomes the
    default of the float converter, NaN. *)
Definition convert (field : string) : F :=
  match py_float field with
  | Some x => x
  | None => f_nan
  end.

(** [np.squeeze]: dimensions of size one are dropped. *)
Definition squeeze (n : nat) (data : list (list F)) : ndarray F :=
  match data with
  | [] => A1 []
  | [r] =>
    match r with
    | [x] => A0 x
    | _ => A1 r
    end
  | _ =>
    if n =? 1 then A1 (map (fun r => nth 0 r f_nan) data)
    else A2 (Matrix n data)
  end.

(** The records of a file: the lines after the header, split into fields,
    blank lines dropped. *)
Definition data_records (lines : list string) : list (list string) :=
  filter has_fields (map split_line (skipn 1 lines)).

(** [np.genfromtxt(path, delimiter=",", skip_header=1)]: the header line is
    skipped, blank lines are dropped, the first record fixes the number of
    columns, a record with another number of fields is an error, and every
    field is converted loosely. *)
Definition genfromtxt (fs : filesystem) (path : string) : result (ndarray F) :=
  match fs path with
  | None => Raise FileNotFoundError
  | Some lines =>
    match data_records lines with
    | [] => Ok (A1 [])
    | first :: _ =>
      let n := length first in
      if forallb (fun r => length r =? n) (data_records lines) then
        Ok (squeeze n (map (map convert) (data_records lines)))
      else Raise ValueError
    end
  end.

(** The cell: [data[:, :-1]] and [data[:, -1]] need a 2-D array. *)
Definition load (fs : filesystem) (path : string) : result (matrix F * list F) :=
  data <- genfromtxt fs path ;;
  match data with
  | A2 D =>
    Ok (Matrix (ncols D - 1) (map (@removelast F) (rows D)),
        map (fun r => last r f_nan) (rows D))
  | _ => Raise IndexError
  end.

End Loader.

(** ** Exact arithmetic with the IEEE special values *)

Inductive xreal : Type :=
| Fin (x : R)
| Inf (negative : bool)
| NaN.

Definition Rneg (x : R) : bool := if Rlt_dec x 0 then true else false.

Definition x_neg (a : xreal) : xreal :=
  match a with
  | Fin x => Fin (- x)
  | Inf s => Inf (negb s)
  | NaN => NaN
  end.

Definition x_add (a b : xreal) : xreal :=
  match a, b with
  | Fin x, Fin y => Fin (x + y)
  | Fin _, Inf s => Inf s
  | Inf s, Fin _ => Inf s
  | Inf s, Inf t => if Bool.eqb s t then Inf s else NaN
  | _, _ => NaN
  end.

Definition x_sub (a b : xreal) : xreal := x_add a (x_neg b).

Definition x_mul (a b : xreal) : xreal :=
  match a, b with
  | Fin x, Fin y => Fin (x * y)
  | Fin x, Inf s => if Req_EM_T x 0 then NaN else Inf (xorb (Rneg x) s)
  | Inf s, Fin y => if Req_EM_T y 0 then NaN else Inf (xorb s (Rneg y))
  | Inf s, Inf t => Inf (xorb s t)
  | _, _ => NaN
  end.

Definition x_div (a b : xreal) : xreal :=
  match a, b with
  | Fin x, Fin y =>
    if Req_EM_T y 0 then
      if Req_EM_T x 0 then NaN else Inf (Rneg x)
    else Fin (x / y)
  | Fin _, Inf _ => Fin 0
  | Inf s, Fin y => Inf (xorb s (Rneg y))
  | _, _ => NaN
  end.

Definition x_sqrt (a : xreal) : xreal :=
  match a with
  | Fin x => if Rlt_dec x 0 then NaN else Fin (sqrt x)
  | Inf false => Inf false
  | _ => NaN
  end.

#[export] Instance xreal_ops : FloatOps xreal := {
  f_zero := Fin 0;
  f_one := Fin 1;
  f_nan := NaN;
  f_add := x_add;
  f_sub := x_sub;
  f_mul := x_mul;
  f_div := x_div;
  f_sqrt := x_sqrt;
  f_of_nat := fun n => Fin (INR n)
}.

(** ** IEEE-754 binary64 *)

#[export] Instance binary64 : FloatOps float := {
  f_zero := 0%float;
  f_one := 1%float;
  f_nan := PrimFloat.nan;
  f_add := PrimFloat.add;
  f_sub := PrimFloat.sub;
  f_mul := PrimFloat.mul;
  f_div := PrimFloat.div;
  f_sqrt := PrimFloat.sqrt;
  f_of_nat := fun n => PrimFloat.of_uint63 (Uint63.of_Z (Z.of_nat n))
}.

(** [float(s)] on unsigned decimal integers, the numerals of the examples
    below; any other string is rejected. *)
Definition digit_value (a : ascii) : option nat :=
  let n := nat_of_ascii a in
  if (48 <=? n) && (n <=? 57) then Some (n - 48) else None.

Fixpoint digits_value (acc : nat) (s : string) : option nat :=
  match s with
  | EmptyString => Some acc
  | String a s' =>
    match digit_value a with
    | Some d => digits_value (10 * acc + d) s'
    | None => None
    end
  end.

Definition decimal_float {F : Type} `{FloatOps F} (s : string) : option F :=
  match s with
  | EmptyString => None
  | _ => option_map f_of_nat (digits_value 0 s)
  end.

(** A file system holding one file, whose second data field is not a number. *)
Definition housing_fs : filesystem :=
  fun path =>
    if String.eqb path "../data/housing.csv"
    then Some ["Size,Price"; "1,x"; "3,4"]%string
    else None.

(** ** Exact-arithmetic reference quantities

    The formulas of the specification, over real numbers; a matrix is the
    list of its rows. *)

Section Reference.
Open Scope R_scope.

Definition sumR (l : list R) : R := fold_right Rplus 0 l.

(** The arithmetic mean: the sum over the count. *)
Definition arithmetic_mean (l : list R) : R := sumR l / INR (length l).

(** Sum of the squared deviations from [c]. *)
Definition sum_sq_dev (c : R) (l : list R) : R :=
  sumR (map (fun x => (x - c) * (x - c)) l).

(** Population variance and standard deviation: denominator N. *)
Definition population_variance (l : list R) : R :=
  sum_sq_dev (arithmetic_mean l) l / INR (length l).

Definition population_std (l : list R) : R := sqrt (population_variance l).

(** Sum of the squared differences of two vectors. *)
Definition sum_sq_diff (u v : list R) : R :=
  sumR (zip_with (fun a b => (a - b) * (a - b)) u v).

(** MSE = (1/N) · Σ(y_true − y_pred)² *)
Definition MSE_spec (y_true y_pred : list R) : R :=
  1 / INR (length y_true) * sum_sq_diff y_true y_pred.

(** R² = 1 − [Σ(y_true − y_pred)²] / [Σ(y_true − mean(y_true))²] *)
Definition R2_spec (y_true y_pred : list R) : R :=
  1 - sum_sq_diff y_true y_pred / sum_sq_dev (arithmetic_mean y_true) y_true.

Definition colR (j : nat) (M : list (list R)) : list R :=
  map (fun r => nth j r 0) M.

(** The entry of row [i] and column [j]. *)
Definition entryR (M : list (list R)) (i j : nat) : R :=
  nth j (nth i M []) 0.

(** The column statistics of a matrix of [m] columns. *)
Definition column_means (m : nat) (M : list (list R)) : list R :=
  map (fun j => arithmetic_mean (colR j M)) (seq 0 m).

Definition column_stds (m : nat) (M : list (list R)) : list R :=
  map (fun j => population_std (colR j M)) (seq 0 m).

(** [M] has [n] rows of [m] entries. *)
Definition is_matrix (n m : nat) (M : list (list R)) : Prop :=
  length M = n /\ Forall (fun r => length r = m) M.

Definition dotR (u v : list R) : R := sumR (zip_with Rmult u v).

(** The transpose of a matrix with [m] columns. *)
Definition transposeR (m : nat) (M : list (list R)) : list (list R) :=
  map (fun j => colR j M) (seq 0 m).

(** The product [A · B], where [B] has [p] columns. *)
Definition mmulR (p : nat) (A B : list (list R)) : list (list R) :=
  map (fun a => map (fun j => dotR a (colR j B)) (seq 0 p)) A.

Definition mvecR (A : list (list R)) (v : list R) : list R :=
  map (fun a => dotR a v) A.

Definition identityR (n : nat) : list (list R) :=
  map (fun i => map (fun j => if Nat.eqb i j then 1 else 0) (seq 0 n)) (seq 0 n).

(** The Gram matrix X^T · X of a matrix with [k] columns. *)
Definition gramR (k : nat) (X : list (list R)) : list (list R) :=
  mmulR k (transposeR k X) X.

(** [G] is the inverse of the [k]×[k] matrix [A]. *)
Definition inverse_of (k : nat) (A G : list (list R)) : Prop :=
  is_matrix k k G /\ mmulR k G A = identityR k /\ mmulR k A G = identityR k.

End Reference.

(** Real vectors and matrices as arrays of finite values. *)
Definition lift (v : list R) : list xreal := map Fin v.

Definition liftM (m : nat) (M : list (list R)) : matrix xreal :=
  Matrix m (map lift M).

(** The standard scores of a real matrix of [m] columns, its design matrix
    (a leading column of ones), and a change of units of its columns
    (column j becomes [a_j * x + c_j]). *)
Definition standard_scores (m : nat) (X : list (list R)) : list (list R) :=
  map (fun r => zip_with Rdiv (zip_with Rminus r (column_means m X))
                         (column_stds m X)) X.

Definition design (m : nat) (X : list (list R)) : list (list R) :=
  map (cons 1%R) (standard_scores m X).

Definition rescale (a c : list R) (X : list (list R)) : list (list R) :=
  map (fun r => zip_with Rplus (zip_with Rmult a r) c) X.

(** One row of the normalised array: [(r - means) / stds]. *)
Definition normalized_row (means stds r : list R) : list xreal :=
  zip_with x_div (zip_with x_sub (lift r) (lift means)) (lift stds).

(** * Verification *)

(** ** Lists *)

Lemma zip_with_length {A B C : Type} (f : A -> B -> C) (u : list A) (v : list B) :
  length (zip_with f u v) = Nat.min (length u) (length v).
Proof.
  revert v; induction u as [|a u IH]; intros [|b v]; simpl; auto.
Qed.

Lemma nth_zip_with {A B C : Type} (f : A -> B -> C) (u : list A) (v : list B)
  (j : nat) (da : A) (db : B) (dc : C) :
  (j < length u)%nat -> (j < length v)%nat ->
  nth j (zip_with f u v) dc = f (nth j u da) (nth j v db).
Proof.
  revert u v; induction j as [|j IH]; intros [|a u] [|b v] Hu Hv;
    simpl in *; try lia; auto.
  apply IH; lia.
Qed.

Lemma zip_with_repeat_l {A B C : Type} (f : A -> B -> C) (a : A) (v : list B) :
  zip_with f (repeat a (length v)) v = map (f a) v.
Proof.
  induction v as [|b v IH]; simpl; congruence.
Qed.

Lemma zip_with_map_l {A A' B C : Type} (f : A' -> B -> C) (g : A -> A')
  (u : list A) (v : list B) :
  zip_with f (map g u) v = zip_with (fun a b => f (g a) b) u v.
Proof.
  revert v; induction u as [|a u IH]; intros [|b v]; simpl; auto.
  now rewrite IH.
Qed.

Lemma zip_with_map_r {A B B' C : Type} (f : A -> B' -> C) (g : B -> B')
  (u : list A) (v : list B) :
  zip_with f u (map g v) = zip_with (fun a b => f a (g b)) u v.
Proof.
  revert v; induction u as [|a u IH]; intros [|b v]; simpl; auto.
  now rewrite IH.
Qed.

Lemma map_zip_with {A B C D : Type} (g : C -> D) (f : A -> B -> C)
  (u : list A) (v : list B) :
  map g (zip_with f u v) = zip_with (fun a b => g (f a b)) u v.
Proof.
  revert v; induction u as [|a u IH]; intros [|b v]; simpl; auto.
  now rewrite IH.
Qed.

Lemma nth_map_seq {A : Type} (g : nat -> A) (n j : nat) (d : A) :
  (j < n)%nat -> nth j (map g (seq 0 n)) d = g j.
Proof.
  intros Hj.
  rewrite (nth_indep _ d (g 0%nat)) by now rewrite length_map, length_seq.
  rewrite (map_nth g (seq 0 n) 0%nat j), seq_nth; auto.
Qed.

Lemma map_nth_seq_id {A : Type} (l : list A) (d : A) :
  map (fun j => nth j l d) (seq 0 (length l)) = l.
Proof.
  induction l as [|a l IH]; simpl; auto.
  f_equal. rewrite <- seq_shift, map_map. exact IH.
Qed.

(** ** The bias column (C4) *)

Section Bias.
Context {F : Type} `{FloatOps F}.

Lemma zip_with_cons_length (v : list F) (rs : list (list F)) :
  length v = length rs -> length (zip_with cons v rs) = length rs.
Proof.
  intros E. rewrite zip_with_length, E. apply Nat.min_id.
Qed.

Lemma column_0_zip_cons (v : list F) (rs : list (list F)) (n : nat) :
  length v = length rs ->
  column 0 (Matrix n (zip_with cons v rs)) = v.
Proof.
  unfold column; simpl. revert rs.
  induction v as [|a v IH]; intros [|r rs] E; simpl in *; try discriminate; auto.
  f_equal. apply IH. congruence.
Qed.

Lemma column_S_zip_cons (v : list F) (rs : list (list F)) (n m j : nat) :
  length v = length rs ->
  column (S j) (Matrix n (zip_with cons v rs)) = column j (Matrix m rs).
Proof.
  unfold column; simpl. revert rs.
  induction v as [|a v IH]; intros [|r rs] E; simpl in *; try discriminate; auto.
  f_equal. apply IH. congruence.
Qed.

Lemma well_formed_zip_cons (v : list F) (rs : list (list F)) (n : nat) :
  Forall (fun r => length r = n) rs ->
  Forall (fun r => length r = S n) (zip_with cons v rs).
Proof.
  intros W; revert v. induction W as [|r rs Hr W IH]; intros [|a v]; simpl; auto.
  constructor; simpl; auto.
Qed.

Lemma add_bias_eq (X : matrix F) :
  add_bias X = Ok (Matrix (S (ncols X)) (zip_with cons (np_ones (nrows X)) (rows X))).
Proof.
  unfold add_bias, np_c_, np_ones.
  now rewrite repeat_length, Nat.eqb_refl.
Qed.

(** C4: [add_bias] returns an R×(C+1) array whose column 0 is all ones and
    whose columns 1..C are the columns of [X], in order and row by row. *)
Theorem add_bias_spec (X : matrix F) :
  exists B : matrix F,
    add_bias X = Ok B /\
    nrows B = nrows X /\
    ncols B = S (ncols X) /\
    (well_formed X -> well_formed B) /\
    column 0 B = repeat f_one (nrows X) /\
    (forall j : nat, column (S j) B = column j X).
Proof.
  eexists. split; [apply add_bias_eq|].
  assert (E : length (np_ones (F:=F) (nrows X)) = length (rows X))
    by apply repeat_length.
  repeat split.
  - unfold nrows at 1; simpl. now apply zip_with_cons_length.
  - intros W. now apply well_formed_zip_cons.
  - now apply column_0_zip_cons.
  - intros j. destruct X as [c rs]. now apply column_S_zip_cons.
Qed.

End Bias.

(** ** The prediction cell and the feature count (C7) *)

Section Predictor.
Context {F : Type} `{FloatOps F}.

Lemma broadcast21_same (op : F -> F -> F) (X : matrix F) (v : list F) :
  ncols X = length v ->
  broadcast21 op X v = Ok (Matrix (ncols X) (map (fun r => zip_with op r v) (rows X))).
Proof.
  intros E. unfold broadcast21. now rewrite E, Nat.eqb_refl.
Qed.

(** [normalize] has no error path: whatever the values, the statistics have
    one entry per column and both broadcasts succeed. *)
Lemma normalize_returns (X : matrix F) :
  exists r : matrix F * list F * list F, normalize X = Ok r.
Proof.
  unfold normalize. cbv zeta.
  rewrite broadcast21_same
    by (unfold np_mean_axis0; now rewrite length_map, length_seq).
  cbn [bind].
  rewrite broadcast21_same
    by (unfold np_std_axis0; cbn [ncols]; now rewrite length_map, length_seq).
  cbn [bind]. eexists; reflexivity.
Qed.

(** A row of one feature is stretched over all the columns of the statistics. *)
Lemma broadcast21_stretch_row (op : F -> F -> F) (a : F) (v : list F) :
  length v <> 1%nat ->
  broadcast21 op (Matrix 1 [[a]]) v = Ok (Matrix (length v) [map (op a) v]).
Proof.
  intros N. unfold broadcast21; simpl.
  destruct v as [|b [|b' v]]; simpl in *; try reflexivity; congruence.
Qed.

(** Incompatible trailing dimensions raise. *)
Lemma broadcast21_mismatch (op : F -> F -> F) (X : matrix F) (v : list F) :
  ncols X <> length v -> ncols X <> 1%nat -> length v <> 1%nat ->
  broadcast21 op X v = Raise ValueError.
Proof.
  intros N1 N2 N3. unfold broadcast21.
  rewrite (proj2 (Nat.eqb_neq _ _) N1), (proj2 (Nat.eqb_neq _ _) N2).
  destruct v as [|b [|b' v]]; simpl in *; try reflexivity; congruence.
Qed.

(** With statistics of one column, a longer or empty row is stretched
    against them and keeps its length. *)
Lemma broadcast21_stretch_stat (op : F -> F -> F) (X : matrix F) (b : F) :
  ncols X <> 1%nat ->
  broadcast21 op X [b] = Ok (Matrix (ncols X) (map (map (fun a => op a b)) (rows X))).
Proof.
  intros N. unfold broadcast21; simpl.
  now rewrite (proj2 (Nat.eqb_neq _ _) N).
Qed.

Lemma predict_after_centring (mean std theta : list F) (X X' : matrix F) :
  broadcast21 f_sub X mean = broadcast21 f_sub X' mean ->
  predict mean std theta X = predict mean std theta X'.
Proof.
  intros E. unfold predict. now rewrite E.
Qed.

(** C7 (amended): a row whose feature count differs from the training count
    makes the prediction cell raise NumPy's shape error, unless the row has
    exactly one feature: that row is broadcast, its value standing in every
    column, and a prediction is returned. *)
Theorem predict_feature_count (mean std theta x : list F) :
  length std = length mean ->
  length theta = S (length mean) ->
  length x <> length mean ->
  (length x <> 1%nat ->
   predict mean std theta (Matrix (length x) [x]) = Raise ValueError) /\
  (forall a : F, x = [a] ->
   (exists p : F, predict mean std theta (Matrix 1 [x]) = Ok p) /\
   predict mean std theta (Matrix 1 [x]) =
   predict mean std theta (Matrix (length mean) [repeat a (length mean)])).
Proof.
  intros Es Et N. split.
  - intros N1. unfold predict.
    destruct (Nat.eq_dec (length mean) 1) as [C1|C1].
    + destruct mean as [|b [|b' mean]]; simpl in C1; try discriminate.
      destruct std as [|s [|s' std]]; simpl in Es; try discriminate.
      rewrite broadcast21_stretch_stat by exact N1. cbn [bind ncols rows].
      rewrite broadcast21_stretch_stat by exact N1. cbn [bind ncols rows].
      rewrite add_bias_eq. cbn [bind]. unfold matvec. cbn [ncols].
      rewrite Et. cbn [length].
      destruct (Nat.eqb_spec (S (length x)) 2) as [E|E]; [lia|reflexivity].
    + rewrite broadcast21_mismatch; auto.
  - intros a ->. cbn [length] in N.
    assert (C1 : length mean <> 1%nat) by congruence.
    split.
    + unfold predict.
      rewrite broadcast21_stretch_row by exact C1. cbn [bind].
      rewrite broadcast21_same by (cbn [ncols]; congruence). cbn [bind ncols rows].
      rewrite add_bias_eq. cbn [bind]. unfold matvec. cbn [ncols].
      rewrite Et, Nat.eqb_refl. cbn [rows nrows np_ones map repeat length zip_with].
      eexists; reflexivity.
    + apply predict_after_centring.
      rewrite broadcast21_stretch_row by exact C1.
      rewrite broadcast21_same by reflexivity. cbn [ncols rows map].
      now rewrite zip_with_repeat_l.
Qed.

End Predictor.

(** The theorem at a training set of two features, in binary64: rows of
    three features and of one feature. *)
Lemma predict_feature_count_witness :
  (3 <> 1%nat ->
   predict [1; 2]%float [1; 1]%float [0; 1; 1]%float (Matrix 3 [[5; 6; 7]%float])
   = Raise ValueError) /\
  (forall a : float, [5; 6; 7]%float = [a] ->
   (exists p : float,
      predict [1; 2]%float [1; 1]%float [0; 1; 1]%float (Matrix 1 [[5; 6; 7]%float])
      = Ok p) /\
   predict [1; 2]%float [1; 1]%float [0; 1; 1]%float (Matrix 1 [[5; 6; 7]%float]) =
   predict [1; 2]%float [1; 1]%float [0; 1; 1]%float (Matrix 2 [repeat a 2])).
Proof.
  apply (predict_feature_count [1; 2]%float [1; 1]%float [0; 1; 1]%float
           [5; 6; 7]%float); simpl; [reflexivity | reflexivity | lia].
Defined.

(** C7 as stated fails: trained on two features (mean, std of length 2,
    theta of length 3), the cell given the one-feature row [[5.0]] raises
    nothing and returns the prediction 7.0 of the padded row [[5.0, 5.0]]. *)
Lemma predict_one_feature_row_counterexample :
  length [5%float] <> length [1; 2]%float /\
  predict [1; 2]%float [1; 1]%float [0; 1; 1]%float (Matrix 1 [[5%float]])
  = Ok 7%float /\
  predict [1; 2]%float [1; 1]%float [0; 1; 1]%float (Matrix 2 [[5; 5]%float])
  = Ok 7%float.
Proof.
  split; [simpl; lia|]. split; vm_compute; reflexivity.
Qed.

(** ** The data-loading cell (C8) *)

Section LoaderFacts.
Context {F : Type} `{FloatOps F}.
Variable py_float : string -> option F.

Lemma removelast_map {A B : Type} (g : A -> B) (l : list A) :
  removelast (map g l) = map g (removelast l).
Proof.
  induction l as [|a [|b l] IH]; simpl in *; auto.
  now rewrite IH.
Qed.

Lemma last_map {A B : Type} (g : A -> B) (l : list A) (da : A) (db : B) :
  l <> [] -> last (map g l) db = g (last l da).
Proof.
  induction l as [|a [|b l] IH]; intros N; simpl in *; auto; try congruence.
  apply IH. discriminate.
Qed.

Lemma genfromtxt_missing (fs : filesystem) (path : string) :
  fs path = None -> genfromtxt py_float fs path = Raise FileNotFoundError.
Proof.
  intros E. unfold genfromtxt. now rewrite E.
Qed.

Lemma forallb_false_exists {A : Type} (p : A -> bool) (l : list A) :
  existsb (fun a => negb (p a)) l = true -> forallb p l = false.
Proof.
  induction l as [|a l IH]; simpl; [discriminate|].
  destruct (p a); simpl; auto.
Qed.

Lemma squeeze_2d (n : nat) (data : list (list F)) :
  2 <= length data -> n <> 1 -> squeeze n data = A2 (Matrix n data).
Proof.
  intros L N. unfold squeeze.
  destruct data as [|r [|r' data]]; simpl in L; try lia.
  now rewrite (proj2 (Nat.eqb_neq _ _) N).
Qed.

(** C8 (amended): the loading cell raises for an absent file and for a
    record whose number of fields differs from the first record's.  A field
    that is not a number raises nothing: with at least two records of the
    same number (at least two) of fields a dataset is returned, every field
    converted loosely, a malformed or empty one to NaN. *)
Theorem load_outcomes (fs : filesystem) (path : string) :
  (fs path = None -> load py_float fs path = Raise FileNotFoundError) /\
  (forall (lines : list string) (first : list string) (rest : list (list string)),
     fs path = Some lines ->
     data_records lines = first :: rest ->
     (existsb (fun r => negb (length r =? length first)) rest = true ->
      load py_float fs path = Raise ValueError) /\
     (forallb (fun r => length r =? length first) rest = true ->
      rest <> [] ->
      2 <= length first ->
      load py_float fs path =
      Ok (Matrix (length first - 1)
            (map (fun r => map (convert py_float) (removelast r)) (first :: rest)),
          map (fun r => convert py_float (last r EmptyString)) (first :: rest)))) /\
  (forall field : string, py_float field = None -> convert py_float field = f_nan).
Proof.
  split; [|split].
  - intros E. unfold load. now rewrite genfromtxt_missing.
  - intros lines first rest E D. split.
    + intros Bad. unfold load, genfromtxt. rewrite E, D. cbn [forallb].
      rewrite Nat.eqb_refl, (forallb_false_exists _ _ Bad). reflexivity.
    + intros Good Two Wide.
      assert (W : Forall (fun r : list string => r <> []) (first :: rest)).
      { constructor.
        - destruct first; simpl in Wide; [lia|discriminate].
        - apply Forall_forall. intros r In.
          rewrite forallb_forall in Good. specialize (Good r In).
          apply Nat.eqb_eq in Good. destruct r; simpl in Good; [lia|discriminate]. }
      unfold load, genfromtxt. rewrite E, D. cbn [forallb].
      rewrite Nat.eqb_refl, Good. cbn [andb].
      rewrite squeeze_2d.
      * cbn [bind ncols rows]. rewrite !map_map. f_equal. f_equal.
        -- f_equal. apply map_ext. intros r. apply removelast_map.
        -- apply map_ext_Forall. revert W. apply Forall_impl.
           intros r Nr. now apply last_map.
      * rewrite length_map. destruct rest; [congruence|simpl; lia].
      * lia.
  - intros field E. unfold convert. now rewrite E.
Qed.

End LoaderFacts.

(** C8 as stated fails: the file below has the data row [1,x], whose second
    field is not a number; in binary64 the cell raises nothing and returns the
    features [[1.0], [3.0]] with the targets [nan, 4.0]. *)
Lemma load_malformed_field_counterexample :
  housing_fs "../data/housing.csv"%string = Some ["Size,Price"; "1,x"; "3,4"]%string /\
  decimal_float (F:=float) "x" = None /\
  load decimal_float housing_fs "../data/housing.csv" =
  Ok (Matrix 1 [[1%float]; [3%float]], [PrimFloat.nan; 4%float]).
Proof.
  repeat split; vm_compute; reflexivity.
Qed.

(** ** Exact arithmetic: NumPy's reductions on finite values *)

Section Exact.
Local Open Scope R_scope.

Lemma lift_length (l : list R) : length (lift l) = length l.
Proof. apply length_map. Qed.

Lemma fold_left_x_add (l : list R) (a : R) :
  fold_left x_add (lift l) (Fin a) = Fin (a + sumR l).
Proof.
  revert a; induction l as [|x l IH]; intros a; simpl.
  - f_equal; lra.
  - rewrite IH. f_equal; lra.
Qed.

Lemma np_sum_lift (l : list R) : np_sum (lift l) = Fin (sumR l).
Proof.
  unfold np_sum. cbn [f_add f_zero xreal_ops].
  rewrite fold_left_x_add. f_equal; lra.
Qed.

Lemma x_div_fin (a b : R) : b <> 0 -> x_div (Fin a) (Fin b) = Fin (a / b).
Proof.
  intros N. unfold x_div. destruct (Req_EM_T b 0); [contradiction|reflexivity].
Qed.

Lemma x_div_zero_zero : x_div (Fin 0) (Fin 0) = NaN.
Proof.
  unfold x_div. destruct (Req_EM_T 0 0) as [_|N]; [reflexivity|now elim N].
Qed.

Lemma INR_length_pos {A : Type} (l : list A) : l <> [] -> 0 < INR (length l).
Proof.
  intros N. destruct l; [congruence|]. apply lt_0_INR. simpl; lia.
Qed.

Lemma np_mean_lift (l : list R) :
  l <> [] -> np_mean (lift l) = Fin (arithmetic_mean l).
Proof.
  intros N. unfold np_mean, arithmetic_mean.
  rewrite np_sum_lift, lift_length. cbn [f_div f_of_nat xreal_ops].
  apply x_div_fin. pose proof (INR_length_pos l N). lra.
Qed.

Lemma square_lift (l : list R) :
  square (lift l) = lift (map (fun x => x * x) l).
Proof.
  unfold square, lift. rewrite !map_map. reflexivity.
Qed.

Lemma sub_const_lift (l : list R) (c : R) :
  map (fun x => f_sub x (Fin c)) (lift l) = lift (map (fun x => x - c) l).
Proof.
  unfold lift. rewrite !map_map. reflexivity.
Qed.

Lemma sumR_nonneg (l : list R) : Forall (fun x => 0 <= x) l -> 0 <= sumR l.
Proof.
  induction 1; simpl; lra.
Qed.

Lemma sum_sq_dev_nonneg (c : R) (l : list R) : 0 <= sum_sq_dev c l.
Proof.
  unfold sum_sq_dev. apply sumR_nonneg.
  apply Forall_forall. intros y In. apply in_map_iff in In.
  destruct In as [x [<- _]]. apply (Rle_0_sqr (x - c)).
Qed.

Lemma population_variance_nonneg (l : list R) : 0 <= population_variance l.
Proof.
  unfold population_variance. destruct l as [|x l].
  - simpl. unfold sum_sq_dev; simpl. lra.
  - apply Rmult_le_pos; [apply sum_sq_dev_nonneg|].
    apply Rlt_le, Rinv_0_lt_compat, INR_length_pos. discriminate.
Qed.

Lemma np_var_lift (l : list R) :
  l <> [] -> np_var (lift l) = Fin (population_variance l).
Proof.
  intros N. unfold np_var. cbv zeta.
  rewrite np_mean_lift by exact N.
  rewrite sub_const_lift, square_lift, np_mean_lift.
  - unfold population_variance, arithmetic_mean at 1, sum_sq_dev.
    now rewrite !map_map, !length_map.
  - destruct l; [congruence|discriminate].
Qed.

Lemma np_std_lift (l : list R) :
  l <> [] -> np_std (lift l) = Fin (population_std l).
Proof.
  intros N. unfold np_std. rewrite np_var_lift by exact N.
  cbn [f_sqrt xreal_ops]. unfold x_sqrt.
  destruct (Rlt_dec (population_variance l) 0) as [L|_]; [|reflexivity].
  pose proof (population_variance_nonneg l). lra.
Qed.

Lemma nth_lift (l : list R) (j : nat) :
  (j < length l)%nat -> nth j (lift l) NaN = Fin (nth j l 0).
Proof.
  intros Hj. unfold lift.
  rewrite (nth_indep _ NaN (Fin 0)) by now rewrite length_map.
  apply (map_nth Fin).
Qed.

Lemma is_matrix_row (n m : nat) (M : list (list R)) (i : nat) :
  is_matrix n m M -> (i < n)%nat -> length (nth i M []) = m.
Proof.
  intros [L W] Hi. rewrite Forall_forall in W. apply W, nth_In. lia.
Qed.

Lemma colR_length (j : nat) (M : list (list R)) : length (colR j M) = length M.
Proof. apply length_map. Qed.

Lemma colR_nonempty (n m j : nat) (M : list (list R)) :
  is_matrix n m M -> (0 < n)%nat -> colR j M <> [].
Proof.
  intros [L _] Hn E. apply (f_equal (@length R)) in E.
  rewrite colR_length in E. simpl in E. lia.
Qed.

Lemma nth_colR (M : list (list R)) (i j : nat) :
  nth i (colR j M) 0 = entryR M i j.
Proof.
  unfold colR, entryR. revert i.
  induction M as [|r M IH]; intros [|i]; simpl; auto; now destruct j.
Qed.

Lemma column_liftM (n m j : nat) (M : list (list R)) :
  is_matrix n m M -> (j < m)%nat -> column j (liftM m M) = lift (colR j M).
Proof.
  intros [_ W] Hj. unfold column, liftM, colR, lift. cbn [rows].
  rewrite !map_map. apply map_ext_Forall.
  revert W. apply Forall_impl. intros r Lr.
  apply nth_lift. lia.
Qed.

Lemma np_mean_axis0_liftM (n m : nat) (M : list (list R)) :
  is_matrix n m M -> (0 < n)%nat ->
  np_mean_axis0 (liftM m M) = lift (column_means m M).
Proof.
  intros IM Hn. unfold np_mean_axis0, column_means, lift. cbn [ncols liftM].
  rewrite map_map. apply map_ext_in. intros j Hj. apply in_seq in Hj.
  rewrite (column_liftM n m j M IM) by lia.
  apply np_mean_lift. now apply (colR_nonempty n m j M IM).
Qed.

Lemma np_std_axis0_liftM (n m : nat) (M : list (list R)) :
  is_matrix n m M -> (0 < n)%nat ->
  np_std_axis0 (liftM m M) = lift (column_stds m M).
Proof.
  intros IM Hn. unfold np_std_axis0, column_stds, lift. cbn [ncols liftM].
  rewrite map_map. apply map_ext_in. intros j Hj. apply in_seq in Hj.
  rewrite (column_liftM n m j M IM) by lia.
  apply np_std_lift. now apply (colR_nonempty n m j M IM).
Qed.

Lemma column_means_length (m : nat) (M : list (list R)) :
  length (column_means m M) = m.
Proof. unfold column_means. now rewrite length_map, length_seq. Qed.

Lemma column_stds_length (m : nat) (M : list (list R)) :
  length (column_stds m M) = m.
Proof. unfold column_stds. now rewrite length_map, length_seq. Qed.

(** [normalize] never raises on a well-formed array of finite values. *)
Lemma normalize_exact (n m : nat) (X : list (list R)) :
  is_matrix n m X -> (0 < n)%nat ->
  normalize (liftM m X) =
  Ok (Matrix m (map (normalized_row (column_means m X) (column_stds m X)) X),
      lift (column_means m X), lift (column_stds m X)).
Proof.
  intros IM Hn. unfold normalize. cbv zeta.
  rewrite (np_mean_axis0_liftM n m X IM Hn), (np_std_axis0_liftM n m X IM Hn).
  rewrite broadcast21_same
    by (cbn [ncols liftM]; now rewrite lift_length, column_means_length).
  cbn [bind].
  rewrite broadcast21_same
    by (cbn [ncols]; now rewrite lift_length, column_stds_length).
  cbn [bind ncols rows liftM]. rewrite !map_map. reflexivity.
Qed.

Lemma nth_normalized_row (means stds r : list R) (m j : nat) :
  length means = m -> length stds = m -> length r = m -> (j < m)%nat ->
  nth j (normalized_row means stds r) NaN =
  x_div (Fin (nth j r 0 - nth j means 0)) (Fin (nth j stds 0)).
Proof.
  intros Lm Ls Lr Hj. unfold normalized_row.
  rewrite (nth_zip_with x_div _ _ j NaN NaN NaN).
  - rewrite (nth_zip_with x_sub _ _ j NaN NaN NaN)
      by (rewrite lift_length; lia).
    now rewrite !nth_lift by lia.
  - rewrite zip_with_length, !lift_length. lia.
  - rewrite lift_length. lia.
Qed.

Lemma nth_column_means (m j : nat) (M : list (list R)) :
  (j < m)%nat -> nth j (column_means m M) 0 = arithmetic_mean (colR j M).
Proof. intros Hj. unfold column_means. now rewrite nth_map_seq. Qed.

Lemma nth_column_stds (m j : nat) (M : list (list R)) :
  (j < m)%nat -> nth j (column_stds m M) 0 = population_std (colR j M).
Proof. intros Hj. unfold column_stds. now rewrite nth_map_seq. Qed.

Lemma entry_liftM (n m : nat) (M : list (list R)) (i j : nat) :
  is_matrix n m M -> (i < n)%nat -> (j < m)%nat ->
  entry (liftM m M) i j = Fin (entryR M i j).
Proof.
  intros IM Hi Hj. unfold entry, entryR, liftM. cbn [rows].
  change (@nil xreal) with (lift []). rewrite (map_nth lift).
  apply nth_lift. now rewrite (is_matrix_row n m M i IM Hi).
Qed.

Lemma entry_normalized (n m : nat) (X : list (list R)) (i j : nat) :
  is_matrix n m X -> (i < n)%nat -> (j < m)%nat ->
  entry (Matrix m (map (normalized_row (column_means m X) (column_stds m X)) X)) i j =
  x_div (Fin (entryR X i j - arithmetic_mean (colR j X)))
        (Fin (population_std (colR j X))).
Proof.
  intros IM Hi Hj. unfold entry. cbn [rows].
  change (@nil xreal)
    with (normalized_row (column_means m X) (column_stds m X) []).
  rewrite (map_nth (normalized_row (column_means m X) (column_stds m X))).
  rewrite (nth_normalized_row _ _ _ m j); auto.
  - now rewrite nth_column_means, nth_column_stds.
  - apply column_means_length.
  - apply column_stds_length.
  - now apply (is_matrix_row n m X i).
Qed.

Lemma normalized_well_formed (n m : nat) (X : list (list R)) (means stds : list R) :
  is_matrix n m X -> length means = m -> length stds = m ->
  well_formed (Matrix m (map (normalized_row means stds) X)).
Proof.
  intros [_ W] Lm Ls. unfold well_formed. cbn [rows ncols].
  apply Forall_map. revert W. apply Forall_impl. intros r Lr.
  unfold normalized_row. rewrite !zip_with_length, !lift_length. lia.
Qed.

(** C2 (amended): in exact arithmetic, on a feature matrix of finite values
    with at least one row, [normalize] returns [(X_normalized, mean, std)]: [mean[j]] is the
    arithmetic mean of column j, [std[j]] its population standard deviation
    (denominator N), and
    [X_normalized[i][j] = (X[i][j] - mean[j]) / std[j]]. *)
Theorem normalize_spec (n m : nat) (X : list (list R)) :
  is_matrix n m X -> (0 < n)%nat ->
  exists (X_normalized : matrix xreal) (mean std : list xreal),
    normalize (liftM m X) = Ok (X_normalized, mean, std) /\
    nrows X_normalized = n /\ ncols X_normalized = m /\
    well_formed X_normalized /\
    length mean = m /\ length std = m /\
    forall j : nat, (j < m)%nat ->
      nth j mean NaN = Fin (sumR (colR j X) / INR n) /\
      nth j std NaN =
      Fin (sqrt (sumR (map (fun x => (x - sumR (colR j X) / INR n) *
                                     (x - sumR (colR j X) / INR n))
                           (colR j X)) / INR n)) /\
      forall i : nat, (i < n)%nat ->
        entry X_normalized i j =
        f_div (f_sub (entry (liftM m X) i j) (nth j mean NaN)) (nth j std NaN).
Proof.
  intros IM Hn.
  exists (Matrix m (map (normalized_row (column_means m X) (column_stds m X)) X)),
    (lift (column_means m X)), (lift (column_stds m X)).
  split; [now apply (normalize_exact n m)|].
  pose proof (column_means_length m X) as Lm.
  pose proof (column_stds_length m X) as Ls.
  repeat split.
  - unfold nrows. cbn [rows]. rewrite length_map. apply IM.
  - now apply (normalized_well_formed n m).
  - now rewrite lift_length.
  - now rewrite lift_length.
  - rewrite nth_lift, nth_column_means by lia.
    unfold arithmetic_mean. rewrite colR_length. now destruct IM as [-> _].
  - rewrite nth_lift, nth_column_stds by lia.
    unfold population_std, population_variance, sum_sq_dev, arithmetic_mean.
    rewrite colR_length. now destruct IM as [-> _].
  - intros i Hi.
    rewrite (entry_normalized n m X i j IM Hi H).
    rewrite (entry_liftM n m X i j IM Hi H).
    now rewrite !nth_lift, nth_column_means, nth_column_stds by lia.
Qed.

(** ** Exact arithmetic: the statistics of a standardised column *)

Lemma population_std_nonzero (l : list R) :
  population_variance l <> 0 -> population_std l <> 0.
Proof.
  intros N. pose proof (population_variance_nonneg l) as P.
  unfold population_std.
  assert (0 < sqrt (population_variance l)) by (apply sqrt_lt_R0; lra).
  lra.
Qed.

Lemma population_std_sqr (l : list R) :
  population_std l * population_std l = population_variance l.
Proof.
  unfold population_std. apply sqrt_sqrt, population_variance_nonneg.
Qed.

Lemma sumR_standardized (l : list R) (c s : R) :
  sumR (map (fun x => (x - c) / s) l) = (sumR l - INR (length l) * c) / s.
Proof.
  induction l as [|x l IH].
  - simpl. unfold Rdiv. ring.
  - cbn [map sumR fold_right length]. fold (sumR (map (fun x => (x - c) / s) l)).
    fold (sumR l). rewrite IH, S_INR. unfold Rdiv. ring.
Qed.

Lemma arithmetic_mean_standardized (l : list R) (s : R) :
  l <> [] ->
  arithmetic_mean (map (fun x => (x - arithmetic_mean l) / s) l) = 0.
Proof.
  intros N. pose proof (INR_length_pos l N) as P.
  unfold arithmetic_mean at 1. rewrite sumR_standardized, length_map.
  replace (sumR l - INR (length l) * arithmetic_mean l) with 0
    by (unfold arithmetic_mean; field; lra).
  unfold Rdiv. ring.
Qed.

Lemma sum_sq_dev_standardized (l : list R) (c s : R) :
  sum_sq_dev 0 (map (fun x => (x - c) / s) l) = sum_sq_dev c l / (s * s).
Proof.
  unfold sum_sq_dev. induction l as [|x l IH].
  - simpl. unfold Rdiv. ring.
  - cbn [map sumR fold_right]. unfold sumR in IH. rewrite IH.
    unfold Rdiv. rewrite Rinv_mult. ring.
Qed.

Lemma population_variance_standardized (l : list R) :
  l <> [] -> population_variance l <> 0 ->
  population_variance
    (map (fun x => (x - arithmetic_mean l) / population_std l) l) = 1.
Proof.
  intros N V. pose proof (INR_length_pos l N) as P.
  unfold population_variance at 1.
  rewrite arithmetic_mean_standardized by exact N.
  rewrite sum_sq_dev_standardized, length_map, population_std_sqr.
  unfold population_variance in *.
  assert (sum_sq_dev (arithmetic_mean l) l <> 0).
  { intros Z. apply V. rewrite Z. unfold Rdiv. ring. }
  field. split; lra.
Qed.

Lemma sumR_zero_all (l : list R) :
  Forall (fun x => 0 <= x) l -> sumR l = 0 -> Forall (fun x => x = 0) l.
Proof.
  induction 1 as [|x l Px Pl IH]; intros Z; [constructor|].
  pose proof (sumR_nonneg l Pl) as Q. unfold sumR in *.
  cbn [fold_right] in Z. cbv beta in Px.
  constructor; [lra | apply IH; lra].
Qed.

(** A column of variance zero is constant: every entry is the mean. *)
Lemma zero_variance_constant (l : list R) (x : R) :
  population_variance l = 0 -> In x l -> x - arithmetic_mean l = 0.
Proof.
  intros V I.
  assert (N : l <> []) by (intros ->; inversion I).
  pose proof (INR_length_pos l N) as P.
  assert (Z : sum_sq_dev (arithmetic_mean l) l = 0).
  { unfold population_variance in V.
    apply Rmult_integral in V. destruct V as [V|V]; [exact V|].
    pose proof (Rinv_0_lt_compat _ P). lra. }
  unfold sum_sq_dev in Z. apply sumR_zero_all in Z.
  - rewrite Forall_forall in Z.
    specialize (Z _ (in_map (fun y => (y - arithmetic_mean l) * (y - arithmetic_mean l)) l x I)).
    cbv beta in Z. apply Rmult_integral in Z. tauto.
  - apply Forall_forall. intros y In. apply in_map_iff in In.
    destruct In as [z [<- _]]. apply (Rle_0_sqr (z - arithmetic_mean l)).
Qed.

Lemma column_normalized (n m j : nat) (X : list (list R)) :
  is_matrix n m X -> (j < m)%nat ->
  column j (Matrix m (map (normalized_row (column_means m X) (column_stds m X)) X)) =
  map (fun x => x_div (Fin (x - arithmetic_mean (colR j X)))
                      (Fin (population_std (colR j X))))
      (colR j X).
Proof.
  intros [_ W] Hj. unfold column, colR. cbn [rows]. rewrite !map_map.
  apply map_ext_Forall. revert W. apply Forall_impl. intros r Lr.
  rewrite (nth_normalized_row _ _ _ m j); auto.
  - now rewrite nth_column_means, nth_column_stds.
  - apply column_means_length.
  - apply column_stds_length.
Qed.

Lemma standardized_lift (l : list R) (c s : R) :
  s <> 0 ->
  map (fun x => x_div (Fin (x - c)) (Fin s)) l = lift (map (fun x => (x - c) / s) l).
Proof.
  intros N. unfold lift. rewrite map_map. apply map_ext. intros x.
  now apply x_div_fin.
Qed.

(** ** Normalisation: standard scores, inversion, constant columns (C9, C10, C6) *)

(** C9 (amended): in exact arithmetic, on a feature matrix of finite values
    with at least one row, when every column of [X] has nonzero variance,
    every column of the normalised array has mean 0 and standard deviation 1,
    as [np.mean] and [np.std] compute them. *)
Theorem normalize_standardizes (n m : nat) (X : list (list R)) :
  is_matrix n m X -> (0 < n)%nat ->
  (forall j : nat, (j < m)%nat -> population_variance (colR j X) <> 0) ->
  exists (X_normalized : matrix xreal) (mean std : list xreal),
    normalize (liftM m X) = Ok (X_normalized, mean, std) /\
    forall j : nat, (j < m)%nat ->
      np_mean (column j X_normalized) = Fin 0 /\
      np_std (column j X_normalized) = Fin 1.
Proof.
  intros IM Hn V.
  exists (Matrix m (map (normalized_row (column_means m X) (column_stds m X)) X)),
    (lift (column_means m X)), (lift (column_stds m X)).
  split; [now apply (normalize_exact n m)|].
  intros j Hj. specialize (V j Hj).
  pose proof (colR_nonempty n m j X IM Hn) as NE.
  rewrite (column_normalized n m j X IM Hj).
  rewrite standardized_lift by now apply population_std_nonzero.
  assert (NE' : map (fun x => (x - arithmetic_mean (colR j X)) /
                              population_std (colR j X)) (colR j X) <> []).
  { destruct (colR j X); [congruence|discriminate]. }
  split.
  - rewrite np_mean_lift by exact NE'.
    now rewrite arithmetic_mean_standardized.
  - rewrite np_std_lift by exact NE'. unfold population_std at 1.
    rewrite population_variance_standardized by assumption.
    now rewrite sqrt_1.
Qed.

(** C10: in exact arithmetic, when every column of [X] has nonzero variance,
    the returned statistics undo the normalisation:
    [X_normalized[i][j] * std[j] + mean[j] = X[i][j]]. *)
Theorem normalize_invertible (n m : nat) (X : list (list R)) :
  is_matrix n m X -> (0 < n)%nat ->
  (forall j : nat, (j < m)%nat -> population_variance (colR j X) <> 0) ->
  exists (X_normalized : matrix xreal) (mean std : list xreal),
    normalize (liftM m X) = Ok (X_normalized, mean, std) /\
    forall i j : nat, (i < n)%nat -> (j < m)%nat ->
      f_add (f_mul (entry X_normalized i j) (nth j std NaN)) (nth j mean NaN)
      = Fin (entryR X i j).
Proof.
  intros IM Hn V.
  exists (Matrix m (map (normalized_row (column_means m X) (column_stds m X)) X)),
    (lift (column_means m X)), (lift (column_stds m X)).
  split; [now apply (normalize_exact n m)|].
  intros i j Hi Hj. specialize (V j Hj).
  apply population_std_nonzero in V.
  rewrite (entry_normalized n m X i j IM Hi Hj).
  rewrite !nth_lift by now rewrite ?column_means_length, ?column_stds_length.
  rewrite nth_column_means, nth_column_stds by exact Hj.
  rewrite x_div_fin by exact V.
  cbn [f_add f_mul xreal_ops x_mul x_add]. f_equal. field. exact V.
Qed.

(** C6 (amended): in exact arithmetic, on a feature matrix of finite values
    with at least one row, [normalize] raises nothing on a zero-variance
    column: it returns the standard deviation 0 for that column and NaN (0/0)
    in every row of it. *)
Theorem normalize_zero_variance (n m j : nat) (X : list (list R)) :
  is_matrix n m X -> (0 < n)%nat -> (j < m)%nat ->
  population_variance (colR j X) = 0 ->
  exists (X_normalized : matrix xreal) (mean std : list xreal),
    normalize (liftM m X) = Ok (X_normalized, mean, std) /\
    nth j std NaN = Fin 0 /\
    forall i : nat, (i < n)%nat -> entry X_normalized i j = NaN.
Proof.
  intros IM Hn Hj V.
  exists (Matrix m (map (normalized_row (column_means m X) (column_stds m X)) X)),
    (lift (column_means m X)), (lift (column_stds m X)).
  split; [now apply (normalize_exact n m)|].
  assert (S0 : population_std (colR j X) = 0)
    by (unfold population_std; rewrite V; apply sqrt_0).
  split.
  - rewrite nth_lift by now rewrite column_stds_length.
    now rewrite nth_column_stds, S0.
  - intros i Hi. rewrite (entry_normalized n m X i j IM Hi Hj), S0.
    rewrite (zero_variance_constant (colR j X) (entryR X i j) V).
    + apply x_div_zero_zero.
    + rewrite <- nth_colR. apply nth_In. rewrite colR_length.
      destruct IM as [-> _]. exact Hi.
Qed.

End Exact.

(** Inputs for the examples: one column of values 1 and 3 (mean 2, standard
    deviation 1), and the same with a second, constant column. *)
Lemma is_matrix_2_1 : is_matrix 2 1 [[1]; [3]]%R.
Proof. split; [reflexivity | repeat constructor]. Qed.

Lemma is_matrix_2_2 : is_matrix 2 2 [[1; 5]; [3; 5]]%R.
Proof. split; [reflexivity | repeat constructor]. Qed.

Lemma variance_2_1 (j : nat) :
  j < 1 -> (population_variance (colR j [[1]; [3]]) <> 0)%R.
Proof.
  intros Hj. assert (j = 0) as -> by lia.
  unfold population_variance, sum_sq_dev, arithmetic_mean, colR, sumR.
  simpl. lra.
Qed.

Lemma variance_2_2 : (population_variance (colR 1 [[1; 5]; [3; 5]]) = 0)%R.
Proof.
  unfold population_variance, sum_sq_dev, arithmetic_mean, colR, sumR.
  simpl. lra.
Qed.

Lemma normalize_spec_witness :
  exists (X_normalized : matrix xreal) (mean std : list xreal),
    normalize (liftM 1 [[1]; [3]]%R) = Ok (X_normalized, mean, std) /\
    nrows X_normalized = 2 /\ ncols X_normalized = 1 /\
    well_formed X_normalized /\
    length mean = 1 /\ length std = 1 /\
    forall j : nat, j < 1 ->
      nth j mean NaN = Fin (sumR (colR j [[1]; [3]]%R) / INR 2) /\
      nth j std NaN =
      Fin (sqrt (sumR (map (fun x => (x - sumR (colR j [[1]; [3]]) / INR 2) *
                                     (x - sumR (colR j [[1]; [3]]) / INR 2))
                           (colR j [[1]; [3]]))%R / INR 2)) /\
      forall i : nat, i < 2 ->
        entry X_normalized i j =
        f_div (f_sub (entry (liftM 1 [[1]; [3]]%R) i j) (nth j mean NaN))
              (nth j std NaN).
Proof.
  apply (normalize_spec 2 1 [[1]; [3]]%R); [exact is_matrix_2_1 | lia].
Defined.

Lemma normalize_standardizes_witness :
  exists (X_normalized : matrix xreal) (mean std : list xreal),
    normalize (liftM 1 [[1]; [3]]%R) = Ok (X_normalized, mean, std) /\
    forall j : nat, j < 1 ->
      np_mean (column j X_normalized) = Fin 0 /\
      np_std (column j X_normalized) = Fin 1.
Proof.
  apply (normalize_standardizes 2 1 [[1]; [3]]%R);
    [exact is_matrix_2_1 | lia | exact variance_2_1].
Defined.

Lemma normalize_invertible_witness :
  exists (X_normalized : matrix xreal) (mean std : list xreal),
    normalize (liftM 1 [[1]; [3]]%R) = Ok (X_normalized, mean, std) /\
    forall i j : nat, i < 2 -> j < 1 ->
      f_add (f_mul (entry X_normalized i j) (nth j std NaN)) (nth j mean NaN)
      = Fin (entryR [[1]; [3]]%R i j).
Proof.
  apply (normalize_invertible 2 1 [[1]; [3]]%R);
    [exact is_matrix_2_1 | lia | exact variance_2_1].
Defined.

Lemma normalize_zero_variance_witness :
  exists (X_normalized : matrix xreal) (mean std : list xreal),
    normalize (liftM 2 [[1; 5]; [3; 5]]%R) = Ok (X_normalized, mean, std) /\
    nth 1 std NaN = Fin 0 /\
    forall i : nat, i < 2 -> entry X_normalized i 1 = NaN.
Proof.
  apply (normalize_zero_variance 2 2 1 [[1; 5]; [3; 5]]%R);
    [exact is_matrix_2_2 | lia | lia | exact variance_2_2].
Defined.

(** C6 as stated fails: the column of [[1.0], [1.0]] is constant, and in
    binary64 [normalize] raises nothing: it returns NaN entries with mean 1.0
    and standard deviation 0.0. *)
Lemma normalize_constant_column_counterexample :
  column 0 (Matrix 1 [[1%float]; [1%float]]) = [1%float; 1%float] /\
  normalize (Matrix 1 [[1%float]; [1%float]]) =
  Ok (Matrix 1 [[PrimFloat.nan]; [PrimFloat.nan]], [1%float], [0%float]).
Proof.
  split; vm_compute; reflexivity.
Qed.

(** ** The evaluator (C3, C5) *)

Section Evaluator.
Local Open Scope R_scope.

Lemma broadcast1_same {F : Type} (op : F -> F -> F) (u v : list F) :
  length u = length v -> broadcast1 op u v = Ok (zip_with op u v).
Proof.
  intros E. unfold broadcast1. now rewrite E, Nat.eqb_refl.
Qed.

Lemma zip_with_sub_lift (u v : list R) :
  zip_with f_sub (lift u) (lift v) = lift (zip_with Rminus u v).
Proof.
  unfold lift. rewrite zip_with_map_l, zip_with_map_r, map_zip_with.
  reflexivity.
Qed.

Lemma sum_sq_diff_eq (u v : list R) :
  sumR (map (fun x => x * x) (zip_with Rminus u v)) = sum_sq_diff u v.
Proof.
  unfold sum_sq_diff. now rewrite map_zip_with.
Qed.

Lemma sum_sq_dev_eq (c : R) (l : list R) :
  sumR (map (fun x => x * x) (map (fun x => x - c) l)) = sum_sq_dev c l.
Proof.
  unfold sum_sq_dev. now rewrite map_map.
Qed.

Lemma sum_sq_diff_nonneg (u v : list R) : 0 <= sum_sq_diff u v.
Proof.
  unfold sum_sq_diff. apply sumR_nonneg.
  revert v; induction u as [|a u IH]; intros [|b v]; simpl; auto.
  constructor; [apply (Rle_0_sqr (a - b)) | apply IH].
Qed.

Lemma sum_sq_diff_zero_iff (u v : list R) :
  length u = length v -> (sum_sq_diff u v = 0 <-> v = u).
Proof.
  revert v; induction u as [|a u IH]; intros [|b v] L; simpl in L;
    try discriminate.
  - split; reflexivity.
  - injection L as L. specialize (IH v L).
    pose proof (sum_sq_diff_nonneg u v) as P.
    pose proof (Rle_0_sqr (a - b)) as Q. unfold Rsqr in Q.
    unfold sum_sq_diff in *. cbn [zip_with sumR fold_right].
    fold (sumR (zip_with (fun a b => (a - b) * (a - b)) u v)) in *.
    split.
    + intros Z.
      assert (Za : (a - b) * (a - b) = 0) by lra.
      assert (Zr : sumR (zip_with (fun a b => (a - b) * (a - b)) u v) = 0) by lra.
      apply Rmult_integral in Za. apply IH in Zr. subst v.
      f_equal. destruct Za; lra.
    + intros E. injection E as -> ->.
      assert (Zr : sumR (zip_with (fun a b => (a - b) * (a - b)) u u) = 0)
        by now apply IH.
      rewrite Zr. ring.
Qed.

Lemma variance_sum_sq_dev (l : list R) :
  l <> [] -> population_variance l <> 0 ->
  0 < sum_sq_dev (arithmetic_mean l) l.
Proof.
  intros N V. pose proof (sum_sq_dev_nonneg (arithmetic_mean l) l) as P.
  destruct (Req_dec (sum_sq_dev (arithmetic_mean l) l) 0) as [Z|Z]; [|lra].
  exfalso. apply V. unfold population_variance. rewrite Z. unfold Rdiv. ring.
Qed.

Lemma mean_squared_error_exact (y_true y_pred : list R) :
  length y_true = length y_pred -> y_true <> [] ->
  mean_squared_error (lift y_true) (lift y_pred) = Ok (Fin (MSE_spec y_true y_pred)).
Proof.
  intros L N. unfold mean_squared_error.
  rewrite broadcast1_same by now rewrite !lift_length.
  cbn [bind]. rewrite zip_with_sub_lift, square_lift.
  assert (Ld : length (zip_with Rminus y_true y_pred) = length y_true)
    by (rewrite zip_with_length, <- L; apply Nat.min_id).
  rewrite np_mean_lift.
  - unfold arithmetic_mean, MSE_spec.
    rewrite sum_sq_diff_eq, length_map, Ld. do 2 f_equal.
    field. pose proof (INR_length_pos y_true N). lra.
  - intros E. apply (f_equal (@length R)) in E.
    rewrite length_map, Ld in E. destruct y_true; [congruence|discriminate].
Qed.

Lemma r2_score_exact (y_true y_pred : list R) :
  length y_true = length y_pred -> y_true <> [] ->
  population_variance y_true <> 0 ->
  r2_score (lift y_true) (lift y_pred) = Ok (Fin (R2_spec y_true y_pred)).
Proof.
  intros L N V. unfold r2_score.
  rewrite broadcast1_same by now rewrite !lift_length.
  cbn [bind]. cbv zeta.
  rewrite zip_with_sub_lift, square_lift, np_sum_lift, sum_sq_diff_eq.
  rewrite np_mean_lift by exact N.
  rewrite sub_const_lift, square_lift, np_sum_lift, sum_sq_dev_eq.
  cbn [f_div f_sub f_one xreal_ops].
  rewrite x_div_fin; [reflexivity|].
  pose proof (variance_sum_sq_dev y_true N V). lra.
Qed.

(** C3 (amended): in exact arithmetic, for finite true and predicted targets
    of the same positive length N, the evaluator returns MSE = (1/N)·Σ(y_true − y_pred)²
    and, when the true targets have nonzero variance,
    R² = 1 − Σ(y_true − y_pred)² / Σ(y_true − mean(y_true))². *)
Theorem evaluator_spec (y_true y_pred : list R) :
  length y_true = length y_pred -> y_true <> [] ->
  mean_squared_error (lift y_true) (lift y_pred)
  = Ok (Fin (1 / INR (length y_true) * sum_sq_diff y_true y_pred)) /\
  (population_variance y_true <> 0 ->
   r2_score (lift y_true) (lift y_pred)
   = Ok (Fin (1 - sum_sq_diff y_true y_pred /
                  sum_sq_dev (arithmetic_mean y_true) y_true))).
Proof.
  intros L N. split.
  - now apply mean_squared_error_exact.
  - intros V. now apply r2_score_exact.
Qed.

(** C5 (amended): in exact arithmetic, for targets of the same positive
    length whose true values have nonzero variance, R² is a finite number at
    most 1, and it is 1 exactly when every prediction equals its target. *)
Theorem r2_score_at_most_one (y_true y_pred : list R) :
  length y_true = length y_pred -> y_true <> [] ->
  population_variance y_true <> 0 ->
  exists r : R,
    r2_score (lift y_true) (lift y_pred) = Ok (Fin r) /\
    r <= 1 /\
    (r = 1 <-> y_pred = y_true).
Proof.
  intros L N V. exists (R2_spec y_true y_pred).
  split; [now apply r2_score_exact|].
  pose proof (variance_sum_sq_dev y_true N V) as P.
  pose proof (sum_sq_diff_nonneg y_true y_pred) as Q.
  pose proof (sum_sq_diff_zero_iff y_true y_pred L) as Z.
  unfold R2_spec.
  set (a := sum_sq_diff y_true y_pred) in *.
  set (b := sum_sq_dev (arithmetic_mean y_true) y_true) in *.
  assert (D : 0 <= a / b)
    by (apply Rmult_le_pos; [exact Q | apply Rlt_le, Rinv_0_lt_compat, P]).
  split; [lra|]. rewrite <- Z. split.
  - intros E. assert (E' : a / b = 0) by lra.
    apply Rmult_integral in E'. destruct E' as [E'|E']; [exact E'|].
    pose proof (Rinv_0_lt_compat _ P). lra.
  - intros ->. unfold Rdiv. ring.
Qed.

End Evaluator.

Lemma variance_0_1 : (population_variance [0; 1] <> 0)%R.
Proof.
  unfold population_variance, sum_sq_dev, arithmetic_mean, sumR.
  simpl. lra.
Qed.

Lemma evaluator_spec_witness :
  mean_squared_error (lift [0; 1]%R) (lift [1; 1]%R)
  = Ok (Fin (1 / INR (length [0; 1]%R) * sum_sq_diff [0; 1]%R [1; 1]%R)) /\
  ((population_variance [0; 1]%R <> 0)%R ->
   r2_score (lift [0; 1]%R) (lift [1; 1]%R)
   = Ok (Fin (1 - sum_sq_diff [0; 1]%R [1; 1]%R /
                  sum_sq_dev (arithmetic_mean [0; 1]%R) [0; 1]%R))).
Proof.
  apply (evaluator_spec [0; 1]%R [1; 1]%R); [reflexivity | discriminate].
Defined.

Lemma r2_score_at_most_one_witness :
  exists r : R,
    r2_score (lift [0; 1]%R) (lift [1; 1]%R) = Ok (Fin r) /\
    (r <= 1)%R /\
    (r = 1%R <-> [1; 1]%R = [0; 1]%R).
Proof.
  apply (r2_score_at_most_one [0; 1]%R [1; 1]%R);
    [reflexivity | discriminate | exact variance_0_1].
Defined.

(** C5 as stated fails in binary64: the true targets [0.0, 1.0] have
    variance 0.25, the predictions [2^-30, 1.0] differ from them, and
    [r2_score] returns exactly 1.0 (ss_res / ss_tot = 2^-59 is absorbed by the
    subtraction from 1). *)
Lemma r2_score_rounds_to_one_counterexample :
  length [0; 1]%float = length [0x1p-30; 1]%float /\
  np_var [0; 1]%float = 0.25%float /\
  [0x1p-30; 1]%float <> [0; 1]%float /\
  r2_score [0; 1]%float [0x1p-30; 1]%float = Ok 1%float.
Proof.
  split; [reflexivity|]. split; [vm_compute; reflexivity|].
  split; [|vm_compute; reflexivity].
  intros E.
  apply (f_equal (fun l => match l with
                           | x :: _ => PrimFloat.eqb x 0%float
                           | [] => true
                           end)) in E.
  vm_compute in E. discriminate.
Qed.

(** ** Matrix algebra over the reals *)

Section MatrixAlgebra.
Local Open Scope R_scope.

Lemma dotR_nil_r (u : list R) : dotR u [] = 0.
Proof. now destruct u. Qed.

Lemma dotR_cons (a b : R) (u v : list R) :
  dotR (a :: u) (b :: v) = a * b + dotR u v.
Proof. reflexivity. Qed.

Lemma dotR_zeros {A : Type} (js : list A) (v : list R) :
  dotR (map (fun _ => 0) js) v = 0.
Proof.
  revert v; induction js as [|j js IH]; intros [|b v]; try reflexivity.
  cbn [map]. rewrite dotR_cons, IH. ring.
Qed.

(** The dot product is linear in its first argument. *)
Lemma dotR_linear {A : Type} (c : R) (f g : A -> R) (js : list A) (v : list R) :
  dotR (map (fun j => c * f j + g j) js) v =
  c * dotR (map f js) v + dotR (map g js) v.
Proof.
  revert v; induction js as [|j js IH]; intros [|b v]; cbn [map];
    rewrite ?dotR_nil_r, ?dotR_cons; try (unfold dotR; simpl; ring).
  rewrite IH. ring.
Qed.

Lemma dotR_row_as_seq (b v : list R) :
  dotR (map (fun j => nth j b 0) (seq 0 (length b))) v = dotR b v.
Proof. now rewrite map_nth_seq_id. Qed.

(** One row of [(A · B) · v = A · (B · v)]. *)
Lemma dotR_assoc (p : nat) (a v : list R) (B : list (list R)) :
  Forall (fun b => length b = p) B ->
  dotR (map (fun j => dotR a (colR j B)) (seq 0 p)) v = dotR a (mvecR B v).
Proof.
  intros W. revert a. induction W as [|b B Lb W IH]; intros a.
  - cbn [colR mvecR map]. rewrite !dotR_nil_r.
    apply (dotR_zeros (seq 0 p)).
  - destruct a as [|a0 a].
    + apply (dotR_zeros (seq 0 p)).
    + cbn [colR mvecR map]. rewrite dotR_cons.
      rewrite (map_ext (fun j => dotR (a0 :: a) (nth j b 0 :: map (fun r => nth j r 0) B))
                       (fun j => a0 * nth j b 0 + dotR a (colR j B)))
        by (intros; apply dotR_cons).
      rewrite dotR_linear, IH. subst p. now rewrite dotR_row_as_seq.
Qed.

Lemma mvecR_assoc (p : nat) (A B : list (list R)) (v : list R) :
  Forall (fun b => length b = p) B ->
  mvecR (mmulR p A B) v = mvecR A (mvecR B v).
Proof.
  intros W. unfold mvecR at 1 3, mmulR. rewrite map_map.
  apply map_ext. intros a. now apply dotR_assoc.
Qed.

Lemma dotR_indicator (i : nat) (v : list R) (s : nat) :
  dotR (map (fun j => if Nat.eqb i j then 1 else 0) (seq s (length v))) v =
  if (s <=? i)%nat && (i <? s + length v)%nat then nth (i - s) v 0 else 0.
Proof.
  revert s; induction v as [|x v IH]; intros s.
  - cbn [length seq map]. rewrite dotR_nil_r.
    destruct (Nat.leb_spec s i), (Nat.ltb_spec i (s + 0)); simpl; auto; lia.
  - cbn [length seq map]. rewrite dotR_cons, IH.
    destruct (Nat.eqb_spec i s) as [->|Ne].
    + rewrite Nat.leb_refl, Nat.sub_diag.
      destruct (Nat.leb_spec (S s) s); [lia|].
      destruct (Nat.ltb_spec s (s + S (length v))); [|lia].
      simpl. ring.
    + destruct (Nat.leb_spec (S s) i), (Nat.leb_spec s i); try lia;
        destruct (Nat.ltb_spec i (S s + length v)),
                 (Nat.ltb_spec i (s + S (length v))); try lia; simpl; try ring.
      replace (i - s)%nat with (S (i - S s)) by lia. simpl. ring.
Qed.

Lemma mvecR_identity (k : nat) (v : list R) :
  length v = k -> mvecR (identityR k) v = v.
Proof.
  intros <-.
  unfold mvecR, identityR. rewrite map_map.
  transitivity (map (fun i => nth i v 0) (seq 0 (length v)));
    [|apply map_nth_seq_id].
  apply map_ext_in. intros i Hi. apply in_seq in Hi.
  rewrite dotR_indicator.
  destruct (Nat.ltb_spec i (0 + length v)); [|lia].
  simpl. now rewrite Nat.sub_0_r.
Qed.

Lemma mvecR_length (A : list (list R)) (v : list R) :
  length (mvecR A v) = length A.
Proof. apply length_map. Qed.

Lemma transposeR_is_matrix (n m : nat) (M : list (list R)) :
  is_matrix n m M -> is_matrix m n (transposeR m M).
Proof.
  intros [L _]. unfold transposeR. split.
  - now rewrite length_map, length_seq.
  - apply Forall_map, Forall_forall. intros j _. now rewrite colR_length.
Qed.

Lemma mmulR_is_matrix (n p : nat) (A B : list (list R)) :
  length A = n -> is_matrix n p (mmulR p A B).
Proof.
  intros L. unfold mmulR. split.
  - now rewrite length_map.
  - apply Forall_map, Forall_forall. intros a _.
    now rewrite length_map, length_seq.
Qed.

Lemma dotR_comm (u v : list R) : dotR u v = dotR v u.
Proof.
  revert v; induction u as [|a u IH]; intros [|b v]; try reflexivity.
  rewrite !dotR_cons, IH. ring.
Qed.

Lemma dotR_minus_r (a u w : list R) :
  length u = length w ->
  dotR a (zip_with Rminus u w) = dotR a u - dotR a w.
Proof.
  revert u w; induction a as [|a0 a IH]; intros [|x u] [|z w] L;
    simpl in L; try discriminate.
  - unfold dotR; simpl; ring.
  - unfold dotR; simpl; ring.
  - unfold dotR; simpl; ring.
  - cbn [zip_with]. rewrite !dotR_cons, IH by congruence. ring.
Qed.

Lemma mvecR_minus (A : list (list R)) (u w : list R) :
  length u = length w ->
  mvecR A (zip_with Rminus u w) = zip_with Rminus (mvecR A u) (mvecR A w).
Proof.
  intros L. unfold mvecR. induction A as [|a A IH]; cbn [map zip_with]; auto.
  now rewrite IH, dotR_minus_r.
Qed.

(** [X d · e = d · X^T e]. *)
Lemma dotR_adjoint (k : nat) (X : list (list R)) (d e : list R) :
  Forall (fun r => length r = k) X ->
  dotR (mvecR X d) e = dotR d (mvecR (transposeR k X) e).
Proof.
  intros W. rewrite (dotR_comm (mvecR X d)), (dotR_comm d).
  rewrite <- (dotR_assoc k e d X W).
  unfold mvecR, transposeR. rewrite map_map. f_equal.
  apply map_ext. intros j. apply dotR_comm.
Qed.

Lemma dotR_minus_self (d v : list R) : dotR d (zip_with Rminus v v) = 0.
Proof.
  revert d; induction v as [|x v IH]; intros [|d0 d]; try reflexivity.
  cbn [zip_with]. rewrite dotR_cons, IH. ring.
Qed.

(** Squared distances to [y] from two points [w] and [u]. *)
Lemma sum_sq_diff_expand (w u y : list R) :
  length w = length u -> length u = length y ->
  sum_sq_diff w y =
  sum_sq_diff u y + sum_sq_diff w u +
  2 * dotR (zip_with Rminus w u) (zip_with Rminus u y).
Proof.
  revert u y; induction w as [|a w IH]; intros [|b u] [|c y] L1 L2;
    simpl in L1, L2; try discriminate.
  - unfold sum_sq_diff, dotR; simpl; ring.
  - unfold sum_sq_diff in *. cbn [zip_with sumR fold_right].
    rewrite dotR_cons.
    fold (sumR (zip_with (fun a b => (a - b) * (a - b)) w y)).
    fold (sumR (zip_with (fun a b => (a - b) * (a - b)) u y)).
    fold (sumR (zip_with (fun a b => (a - b) * (a - b)) w u)).
    rewrite (IH u y) by congruence. ring.
Qed.

(** ** NumPy's products on finite values *)

Lemma zip_with_mul_lift (u v : list R) :
  zip_with f_mul (lift u) (lift v) = lift (zip_with Rmult u v).
Proof.
  unfold lift. rewrite zip_with_map_l, zip_with_map_r, map_zip_with.
  reflexivity.
Qed.

Lemma dot_lift (u v : list R) : dot (lift u) (lift v) = Fin (dotR u v).
Proof.
  unfold dot, dotR. now rewrite zip_with_mul_lift, np_sum_lift.
Qed.

Lemma transpose_liftM (n m : nat) (M : list (list R)) :
  is_matrix n m M -> transpose (liftM m M) = liftM n (transposeR m M).
Proof.
  intros IM. unfold transpose, transposeR, nrows.
  cbn [rows ncols liftM]. rewrite length_map.
  destruct IM as [L W]. rewrite L. unfold liftM at 2. f_equal.
  rewrite map_map. apply map_ext_in. intros j Hj. apply in_seq in Hj.
  apply (column_liftM n m j M); [now split | lia].
Qed.

Lemma matmul_liftM (n m : nat) (A B : list (list R)) :
  is_matrix n m B ->
  matmul (liftM n A) (liftM m B) = Ok (liftM m (mmulR m A B)).
Proof.
  intros IM. unfold matmul. unfold nrows. cbn [ncols rows liftM].
  rewrite length_map. destruct IM as [L W]. rewrite L, Nat.eqb_refl.
  unfold liftM, mmulR. do 2 f_equal. rewrite !map_map.
  apply map_ext. intros a. unfold lift at 3. rewrite map_map.
  apply map_ext_in. intros j Hj. apply in_seq in Hj.
  change (Matrix m (map lift B)) with (liftM m B).
  rewrite (column_liftM n m j B) by (try split; auto; lia).
  apply dot_lift.
Qed.

Lemma matvec_liftM (m : nat) (A : list (list R)) (v : list R) :
  length v = m -> matvec (liftM m A) (lift v) = Ok (lift (mvecR A v)).
Proof.
  intros L. unfold matvec. cbn [ncols rows liftM].
  rewrite lift_length, L, Nat.eqb_refl. f_equal.
  unfold mvecR, lift at 3. rewrite !map_map.
  apply map_ext. intros a. apply dot_lift.
Qed.

(** ** The normal equation (C1) *)

(** C1 (amended): in exact arithmetic, for a design matrix [X] (r×k) and targets [y]
    (length r) whose Gram matrix X^T·X has the inverse [G], which
    [np.linalg.inv] returns, [normal_equation] returns
    theta = G · X^T · y; theta solves the normal equations
    (X^T·X)·theta = X^T·y, is their only solution, and no coefficient
    vector has a smaller sum of squared residuals. *)
Theorem normal_equation_spec
  (linalg_inv : matrix xreal -> result (matrix xreal))
  (r k : nat) (X G : list (list R)) (y : list R) :
  is_matrix r k X -> length y = r ->
  inverse_of k (gramR k X) G ->
  linalg_inv (liftM k (gramR k X)) = Ok (liftM k G) ->
  exists theta : list R,
    normal_equation linalg_inv (liftM k X) (lift y) = Ok (lift theta) /\
    theta = mvecR G (mvecR (transposeR k X) y) /\
    mvecR (gramR k X) theta = mvecR (transposeR k X) y /\
    (forall b : list R, length b = k ->
       mvecR (gramR k X) b = mvecR (transposeR k X) y -> b = theta) /\
    (forall b : list R, length b = k ->
       sum_sq_diff (mvecR X theta) y <= sum_sq_diff (mvecR X b) y).
Proof.
  intros IM Ly [IG [GA AG]] Inv.
  pose proof (transposeR_is_matrix r k X IM) as IT.
  assert (IA : is_matrix k k (gramR k X)).
  { apply mmulR_is_matrix. apply IT. }
  assert (Lv : length (mvecR (transposeR k X) y) = k).
  { rewrite mvecR_length. apply IT. }
  assert (NE : mvecR (gramR k X) (mvecR G (mvecR (transposeR k X) y))
               = mvecR (transposeR k X) y).
  { rewrite <- (mvecR_assoc k (gramR k X) G) by apply IG.
    rewrite AG. now apply mvecR_identity. }
  exists (mvecR G (mvecR (transposeR k X) y)).
  split; [|split; [reflexivity|split; [exact NE|split]]].
  - unfold normal_equation.
    rewrite (transpose_liftM r k X IM).
    rewrite (matmul_liftM r k (transposeR k X) X IM). cbn [bind].
    fold (gramR k X). rewrite Inv. cbn [bind].
    rewrite (matmul_liftM k r G (transposeR k X) IT). cbn [bind].
    rewrite (matvec_liftM r _ y Ly). f_equal. f_equal.
    apply mvecR_assoc. apply IT.
  - intros b Lb E.
    rewrite <- E, <- (mvecR_assoc k G (gramR k X)) by apply IA.
    rewrite GA. symmetry. now apply mvecR_identity.
  - intros b Lb.
    set (theta := mvecR G (mvecR (transposeR k X) y)) in *.
    assert (Lt : length theta = k).
    { unfold theta. rewrite mvecR_length. apply IG. }
    rewrite (sum_sq_diff_expand (mvecR X b) (mvecR X theta) y)
      by (rewrite !mvecR_length; destruct IM; congruence).
    rewrite <- mvecR_minus by congruence.
    rewrite (dotR_adjoint k) by apply IM.
    rewrite mvecR_minus by (rewrite mvecR_length; destruct IM; congruence).
    rewrite <- (mvecR_assoc k (transposeR k X) X) by apply IM.
    fold (gramR k X). rewrite NE, dotR_minus_self.
    pose proof (sum_sq_diff_nonneg (mvecR X b) (mvecR X theta)). lra.
Qed.

End MatrixAlgebra.

Lemma inverse_of_2_2 :
  inverse_of 2 (gramR 2 [[1; 0]; [1; 1]]%R) [[1; -1]; [-1; 2]]%R.
Proof.
  unfold inverse_of, is_matrix, gramR, mmulR, transposeR, identityR, colR,
    dotR, sumR.
  simpl. repeat split; repeat constructor; repeat f_equal; lra.
Qed.

Lemma normal_equation_spec_witness :
  exists theta : list R,
    normal_equation (fun _ => Ok (liftM 2 [[1; -1]; [-1; 2]]%R))
      (liftM 2 [[1; 0]; [1; 1]]%R) (lift [1; 3]%R) = Ok (lift theta) /\
    theta = mvecR [[1; -1]; [-1; 2]]%R
              (mvecR (transposeR 2 [[1; 0]; [1; 1]]%R) [1; 3]%R) /\
    mvecR (gramR 2 [[1; 0]; [1; 1]]%R) theta
    = mvecR (transposeR 2 [[1; 0]; [1; 1]]%R) [1; 3]%R /\
    (forall b : list R, length b = 2 ->
       mvecR (gramR 2 [[1; 0]; [1; 1]]%R) b
       = mvecR (transposeR 2 [[1; 0]; [1; 1]]%R) [1; 3]%R -> b = theta) /\
    (forall b : list R, length b = 2 ->
       (sum_sq_diff (mvecR [[1; 0]; [1; 1]]%R theta) [1; 3]%R
        <= sum_sq_diff (mvecR [[1; 0]; [1; 1]]%R b) [1; 3]%R)%R).
Proof.
  apply (normal_equation_spec
           (fun _ => Ok (liftM 2 [[1; -1]; [-1; 2]]%R))
           2 2 [[1; 0]; [1; 1]]%R [[1; -1]; [-1; 2]]%R [1; 3]%R).
  - split; [reflexivity | repeat constructor].
  - reflexivity.
  - exact inverse_of_2_2.
  - reflexivity.
Defined.

(** * Further properties of the notebook's code *)

(** ** Shapes and failures, in any arithmetic *)

Section Shapes.
Context {F : Type} `{FloatOps F}.

Lemma np_mean_axis0_length (X : matrix F) : length (np_mean_axis0 X) = ncols X.
Proof. unfold np_mean_axis0. now rewrite length_map, length_seq. Qed.

Lemma np_std_axis0_length (X : matrix F) : length (np_std_axis0 X) = ncols X.
Proof. unfold np_std_axis0. now rewrite length_map, length_seq. Qed.

(** One row of [(X - mean) / std]. *)
Lemma normalize_eq (X : matrix F) :
  normalize X =
  Ok (Matrix (ncols X)
        (map (fun r => zip_with f_div (zip_with f_sub r (np_mean_axis0 X))
                                (np_std_axis0 X)) (rows X)),
      np_mean_axis0 X, np_std_axis0 X).
Proof.
  unfold normalize. cbv zeta.
  rewrite broadcast21_same by now rewrite np_mean_axis0_length.
  cbn [bind].
  rewrite broadcast21_same by (cbn [ncols]; now rewrite np_std_axis0_length).
  cbn [bind ncols rows]. now rewrite map_map.
Qed.

(** X1: whatever the values (NaN, infinities, no row at all), [normalize]
    raises nothing; the normalised array has the shape of [X], it is
    well-formed when [X] is, and there is one mean and one standard deviation
    per column. *)
Theorem normalize_keeps_shape (X : matrix F) :
  exists (X_normalized : matrix F) (mean std : list F),
    normalize X = Ok (X_normalized, mean, std) /\
    nrows X_normalized = nrows X /\
    ncols X_normalized = ncols X /\
    length mean = ncols X /\
    length std = ncols X /\
    (well_formed X -> well_formed X_normalized).
Proof.
  do 3 eexists. split; [apply normalize_eq|].
  repeat split.
  - unfold nrows. cbn [rows]. apply length_map.
  - apply np_mean_axis0_length.
  - apply np_std_axis0_length.
  - intros W. unfold well_formed in *. cbn [rows ncols].
    apply Forall_map. revert W. apply Forall_impl. intros r Lr.
    rewrite !zip_with_length, np_mean_axis0_length, np_std_axis0_length. lia.
Qed.

Lemma broadcast1_raises (op : F -> F -> F) (u v : list F) (e : exn) :
  broadcast1 op u v = Raise e <->
  e = ValueError /\ length u <> length v /\ length u <> 1 /\ length v <> 1.
Proof.
  unfold broadcast1. destruct (Nat.eqb_spec (length u) (length v)) as [E|N].
  - split; [discriminate | intros [_ [N _]]; contradiction].
  - destruct u as [|a [|a' u]], v as [|b [|b' v]]; simpl in *;
      try (split; [discriminate | intros [_ [? [? ?]]]; congruence]);
      (split; [intros E; injection E as <-; repeat split; congruence
              | intros [-> _]; reflexivity]).
Qed.

Lemma bind_raises {A B : Type} (c : result A) (k : A -> result B) (e : exn) :
  (forall a : A, exists b : B, k a = Ok b) ->
  (bind c k = Raise e <-> c = Raise e).
Proof.
  intros T. destruct c as [a|e']; simpl.
  - destruct (T a) as [b ->]. split; discriminate.
  - split; intros E; injection E as ->; reflexivity.
Qed.

(** X2: the evaluators fail in exactly one way: [mean_squared_error] and
    [r2_score] raise NumPy's ValueError when the two vectors differ in length
    and neither has length 1, and raise nothing otherwise. *)
Theorem evaluator_raises (y_true y_pred : list F) (e : exn) :
  (mean_squared_error y_true y_pred = Raise e <->
   e = ValueError /\ length y_true <> length y_pred /\
   length y_true <> 1 /\ length y_pred <> 1) /\
  (r2_score y_true y_pred = Raise e <->
   e = ValueError /\ length y_true <> length y_pred /\
   length y_true <> 1 /\ length y_pred <> 1).
Proof.
  split.
  - unfold mean_squared_error. rewrite bind_raises.
    + apply broadcast1_raises.
    + intros d. eexists; reflexivity.
  - unfold r2_score. rewrite bind_raises.
    + apply broadcast1_raises.
    + intros d. eexists; reflexivity.
Qed.

Lemma broadcast1_scalar (op : F -> F -> F) (u : list F) (c : F) :
  broadcast1 op u [c] = broadcast1 op u (repeat c (length u)).
Proof.
  unfold broadcast1 at 2. rewrite repeat_length, Nat.eqb_refl.
  assert (Z : zip_with op u (repeat c (length u)) = map (fun a => op a c) u).
  { induction u as [|a u IH]; simpl; congruence. }
  rewrite Z. unfold broadcast1.
  destruct u as [|a [|a' u]]; reflexivity.
Qed.

(** X3: a prediction vector of length 1 is not rejected: the evaluators
    stretch it, and score it as the constant prediction of that value for
    every sample. *)
Theorem evaluator_stretches_scalar (y_true : list F) (c : F) :
  mean_squared_error y_true [c] =
  mean_squared_error y_true (repeat c (length y_true)) /\
  r2_score y_true [c] = r2_score y_true (repeat c (length y_true)).
Proof.
  unfold mean_squared_error, r2_score.
  now rewrite broadcast1_scalar.
Qed.

Lemma transpose_shape (X : matrix F) :
  ncols (transpose X) = nrows X /\ nrows (transpose X) = ncols X.
Proof.
  unfold transpose, nrows. cbn [ncols rows].
  now rewrite length_map, length_seq.
Qed.

Lemma matmul_gram (X : matrix F) :
  matmul (transpose X) X =
  Ok (Matrix (ncols X)
        (map (fun a => map (fun j => dot a (column j X)) (seq 0 (ncols X)))
             (rows (transpose X)))).
Proof.
  unfold matmul. destruct (transpose_shape X) as [-> _].
  now rewrite Nat.eqb_refl.
Qed.

(** X4: how [normal_equation] fails.  The Gram matrix X^T @ X is always
    formed (shape C×C).  An error of [np.linalg.inv] (a singular matrix) is
    the error of [normal_equation]; with an inverse of C columns, a target
    vector whose length is not the number of rows of [X] raises ValueError,
    and otherwise there is one coefficient per row of the inverse. *)
Theorem normal_equation_failures
  (linalg_inv : matrix F -> result (matrix F)) (X : matrix F) (y : list F) :
  exists gram : matrix F,
    matmul (transpose X) X = Ok gram /\
    nrows gram = ncols X /\ ncols gram = ncols X /\
    (forall e : exn, linalg_inv gram = Raise e ->
       normal_equation linalg_inv X y = Raise e) /\
    (forall gram_inv : matrix F,
       linalg_inv gram = Ok gram_inv -> ncols gram_inv = ncols X ->
       (length y <> nrows X ->
        normal_equation linalg_inv X y = Raise ValueError) /\
       (length y = nrows X ->
        exists theta : list F,
          normal_equation linalg_inv X y = Ok theta /\
          length theta = nrows gram_inv)).
Proof.
  destruct (transpose_shape X) as [Tc Tr].
  eexists. split; [apply matmul_gram|].
  split; [unfold nrows in *; cbn [rows]; now rewrite length_map|].
  split; [reflexivity|]. split.
  - intros e E. unfold normal_equation. rewrite matmul_gram. cbn [bind].
    now rewrite E.
  - intros gram_inv E Ci. unfold normal_equation.
    rewrite matmul_gram. cbn [bind]. rewrite E. cbn [bind].
    unfold matmul. rewrite Ci, Tr, Nat.eqb_refl. cbn [bind].
    unfold matvec. cbn [ncols rows]. rewrite Tc. split.
    + intros N. apply not_eq_sym, Nat.eqb_neq in N. now rewrite N.
    + intros L. rewrite L, Nat.eqb_refl. eexists. split; [reflexivity|].
      unfold nrows. now rewrite !length_map.
Qed.

Lemma matvec_ok (A : matrix F) (v w : list F) :
  matvec A v = Ok w -> ncols A = length v /\ w = map (fun a => dot a v) (rows A).
Proof.
  unfold matvec. destruct (Nat.eqb_spec (ncols A) (length v)) as [E|N];
    [|discriminate].
  intros E'. injection E' as <-. now split.
Qed.

Lemma nth_zip_cons_ones (rs : list (list F)) (i : nat) :
  i < length rs ->
  nth i (zip_with cons (np_ones (length rs)) rs) [] = f_one :: nth i rs [].
Proof.
  unfold np_ones. revert i. induction rs as [|r rs IH]; intros [|i] L;
    simpl in *; try lia; auto.
  apply IH. lia.
Qed.

Lemma add_bias_mapped (c : nat) (g : list F -> list F) (X : matrix F) :
  add_bias (Matrix c (map g (rows X))) =
  Ok (Matrix (S c) (zip_with cons (np_ones (nrows X)) (map g (rows X)))).
Proof.
  rewrite add_bias_eq. unfold nrows. cbn [rows ncols].
  now rewrite length_map.
Qed.

(** The training cells, once they have succeeded. *)
Lemma train_ok (linalg_inv : matrix F -> result (matrix F))
  (X : matrix F) (y : list F) (m : fitted F) :
  train linalg_inv X y = Ok m ->
  fit_mean m = np_mean_axis0 X /\
  fit_std m = np_std_axis0 X /\
  fit_X_bias m =
    Matrix (S (ncols X))
      (zip_with cons (np_ones (nrows X))
         (map (fun r => zip_with f_div (zip_with f_sub r (np_mean_axis0 X))
                                 (np_std_axis0 X)) (rows X))) /\
  normal_equation linalg_inv (fit_X_bias m) y = Ok (fit_theta m) /\
  matvec (fit_X_bias m) (fit_theta m) = Ok (fit_y_pred m) /\
  mean_squared_error y (fit_y_pred m) = Ok (fit_mse m) /\
  r2_score y (fit_y_pred m) = Ok (fit_r2 m).
Proof.
  unfold train. rewrite normalize_eq. cbn [bind].
  rewrite add_bias_mapped. cbn [bind].
  destruct (normal_equation _ _ y) as [theta|] eqn:En; [|discriminate].
  cbn [bind].
  destruct (matvec _ theta) as [y_pred|] eqn:Ep; [|discriminate].
  cbn [bind].
  destruct (mean_squared_error y y_pred) as [mse|] eqn:Em; [|discriminate].
  cbn [bind].
  destruct (r2_score y y_pred) as [r2|] eqn:Er; [|discriminate].
  cbn [bind]. intros E. injection E as <-. cbn.
  repeat split; assumption.
Qed.

End Shapes.

(** X5: in exact arithmetic the prediction cell agrees with training: given
    row i of the training features, it returns the training prediction
    [y_pred[i]]. *)
Theorem predict_training_row
  (linalg_inv : matrix xreal -> result (matrix xreal))
  (X : matrix xreal) (y : list xreal) (m : fitted xreal) (i : nat) :
  train linalg_inv X y = Ok m ->
  i < nrows X ->
  predict (fit_mean m) (fit_std m) (fit_theta m)
    (Matrix (ncols X) [nth i (rows X) []])
  = Ok (nth i (fit_y_pred m) NaN).
Proof.
  intros T Hi.
  destruct (train_ok linalg_inv X y m T) as [-> [-> [Eb [_ [Ep _]]]]].
  apply matvec_ok in Ep. destruct Ep as [Lt ->].
  rewrite Eb in *. cbn [ncols rows] in *.
  unfold predict.
  rewrite broadcast21_same by (cbn [ncols]; now rewrite np_mean_axis0_length).
  cbn [bind ncols rows map].
  rewrite broadcast21_same by (cbn [ncols]; now rewrite np_std_axis0_length).
  cbn [bind ncols rows map].
  rewrite add_bias_eq. cbn [bind]. unfold matvec. cbn [ncols rows].
  rewrite Lt, Nat.eqb_refl.
  unfold nrows in *. cbn [rows length np_ones repeat zip_with map bind].
  f_equal. symmetry.
  set (g := fun r : list xreal =>
              zip_with f_div (zip_with f_sub r (np_mean_axis0 X)) (np_std_axis0 X)).
  rewrite <- (length_map g (rows X)).
  rewrite (nth_indep _ NaN (dot [] (fit_theta m)))
    by (rewrite length_map, zip_with_length; unfold np_ones;
        rewrite repeat_length, Nat.min_id, length_map; exact Hi).
  rewrite (map_nth (fun a => dot a (fit_theta m))).
  rewrite nth_zip_cons_ones by (rewrite length_map; exact Hi).
  change (@nil xreal) with (g []) at 1.
  now rewrite (map_nth g).
Qed.

(** ** The data-loading cell: what it needs and what it returns *)

Section LoaderShape.
Context {F : Type} `{FloatOps F}.
Variable py_float : string -> option F.

Lemma removelast_length {A : Type} (l : list A) :
  length (removelast l) = length l - 1.
Proof.
  induction l as [|a [|b l] IH]; simpl in *; auto. rewrite IH. lia.
Qed.

Lemma data_records_have_fields (lines : list string) :
  Forall (fun r => 1 <= length r) (data_records lines).
Proof.
  unfold data_records. apply Forall_forall. intros r I.
  apply filter_In in I. destruct I as [_ I].
  destruct r; [discriminate | simpl; lia].
Qed.

(** X6: the cell needs a 2-D array.  A file with no data row or a single
    one, or with a single column, is squeezed by [np.genfromtxt] to fewer
    than two dimensions, and the slicing [data[:, :-1]] raises IndexError. *)
Theorem load_index_error (fs : filesystem) (path : string) (lines : list string) :
  fs path = Some lines ->
  length (data_records lines) <= 1 \/
  Forall (fun r => length r = 1) (data_records lines) ->
  load py_float fs path = Raise IndexError.
Proof.
  intros E C. unfold load, genfromtxt. rewrite E.
  destruct (data_records lines) as [|first rest] eqn:D; [reflexivity|].
  destruct rest as [|second rest].
  - cbn [forallb]. rewrite Nat.eqb_refl. cbn [andb map squeeze bind].
    destruct (map (convert py_float) first) as [|x [|x' xs]]; reflexivity.
  - destruct C as [C|C]; [simpl in C; lia|].
    assert (L1 : length first = 1) by now inversion C.
    assert (G : forallb (fun r => length r =? length first)
                        (first :: second :: rest) = true).
    { apply forallb_forall. intros r I. rewrite Forall_forall in C.
      rewrite (C r I), L1. reflexivity. }
    rewrite G, L1. reflexivity.
Qed.

(** X7: what the cell returns when it returns: a well-formed feature matrix
    with at least one column and at least two rows, one row and one target
    per data record of the file, every record having one field more than
    the matrix has columns. *)
Theorem load_dataset_shape (fs : filesystem) (path : string)
  (X : matrix F) (y : list F) :
  load py_float fs path = Ok (X, y) ->
  well_formed X /\
  nrows X = length y /\
  2 <= nrows X /\
  1 <= ncols X /\
  exists lines : list string,
    fs path = Some lines /\
    nrows X = length (data_records lines) /\
    Forall (fun r => length r = S (ncols X)) (data_records lines).
Proof.
  unfold load, genfromtxt.
  destruct (fs path) as [lines|] eqn:E; [|discriminate].
  pose proof (data_records_have_fields lines) as NE.
  destruct (data_records lines) as [|first rest] eqn:D; [discriminate|].
  destruct (forallb _ (first :: rest)) eqn:G; [|discriminate].
  rewrite forallb_forall in G.
  assert (L1 : 1 <= length first) by now inversion NE.
  destruct rest as [|second rest].
  - cbn [map squeeze bind].
    destruct (map (convert py_float) first) as [|x [|x' xs]]; discriminate.
  - unfold squeeze. cbn [map].
    destruct (Nat.eqb_spec (length first) 1) as [L|L]; [discriminate|].
    cbn [bind ncols rows]. intros R. injection R as <- <-.
    unfold nrows, well_formed. cbn [rows ncols].
    assert (W : Forall (fun r : list string => length r = length first)
                  (first :: second :: rest)).
    { apply Forall_forall. intros r I. now apply Nat.eqb_eq, G. }
    repeat split.
    + change (Forall (fun r => length r = length first - 1)
                (map (@removelast F)
                   (map (map (convert py_float)) (first :: second :: rest)))).
      rewrite map_map. apply Forall_map. revert W. apply Forall_impl.
      intros r Lr. now rewrite removelast_length, length_map, Lr.
    + cbn [length]. now rewrite !length_map.
    + simpl. lia.
    + lia.
    + exists lines. split; [reflexivity|]. rewrite D. split.
      * cbn [length]. now rewrite !length_map.
      * revert W. apply Forall_impl. intros r Lr. lia.
Qed.

End LoaderShape.

Lemma load_index_error_witness :
  load (decimal_float (F:=float))
    (fun _ => Some ["Size,Price"; "1,2"]%string) "one_row.csv"
  = Raise IndexError.
Proof.
  apply (load_index_error decimal_float
           (fun _ => Some ["Size,Price"; "1,2"]%string) "one_row.csv"
           ["Size,Price"; "1,2"]%string);
    [reflexivity | left; vm_compute; lia].
Defined.

Lemma load_dataset_shape_witness :
  well_formed (Matrix 1 [[1%float]; [3%float]]) /\
  nrows (Matrix 1 [[1%float]; [3%float]]) = length [PrimFloat.nan; 4%float] /\
  2 <= nrows (Matrix 1 [[1%float]; [3%float]]) /\
  1 <= ncols (Matrix 1 [[1%float]; [3%float]]) /\
  exists lines : list string,
    housing_fs "../data/housing.csv"%string = Some lines /\
    nrows (Matrix 1 [[1%float]; [3%float]]) = length (data_records lines) /\
    Forall (fun r => length r = S (ncols (Matrix 1 [[1%float]; [3%float]])))
      (data_records lines).
Proof.
  apply (load_dataset_shape decimal_float housing_fs "../data/housing.csv"%string
           (Matrix 1 [[1%float]; [3%float]]) [PrimFloat.nan; 4%float]).
  vm_compute. reflexivity.
Defined.

(** ** The evaluator at its edges, in exact arithmetic *)

Section EvaluatorEdges.
Local Open Scope R_scope.

Lemma sum_sq_diff_sym (u v : list R) : sum_sq_diff u v = sum_sq_diff v u.
Proof.
  unfold sum_sq_diff.
  revert v; induction u as [|a u IH]; intros [|b v]; try reflexivity.
  cbn [zip_with sumR fold_right]. unfold sumR in IH. rewrite IH. ring.
Qed.

(** X8: in exact arithmetic the mean squared error of two vectors of the
    same positive length is a finite number, never negative, zero exactly
    when every prediction equals its target, and the same whichever vector
    is passed first. *)
Theorem mean_squared_error_zero_iff (y_true y_pred : list R) :
  length y_true = length y_pred -> y_true <> [] ->
  exists e : R,
    mean_squared_error (lift y_true) (lift y_pred) = Ok (Fin e) /\
    0 <= e /\
    (e = 0 <-> y_pred = y_true) /\
    mean_squared_error (lift y_pred) (lift y_true) = Ok (Fin e).
Proof.
  intros L N. exists (MSE_spec y_true y_pred).
  pose proof (INR_length_pos y_true N) as P.
  pose proof (sum_sq_diff_nonneg y_true y_pred) as Q.
  pose proof (sum_sq_diff_zero_iff y_true y_pred L) as Z.
  assert (I : 0 < 1 / INR (length y_true))
    by (unfold Rdiv; rewrite Rmult_1_l; now apply Rinv_0_lt_compat).
  split; [now apply mean_squared_error_exact|].
  unfold MSE_spec. split; [|split].
  - apply Rmult_le_pos; lra.
  - rewrite <- Z. split.
    + intros E. apply Rmult_integral in E. destruct E; lra.
    + intros ->. ring.
  - rewrite mean_squared_error_exact.
    + unfold MSE_spec. now rewrite L, sum_sq_diff_sym.
    + congruence.
    + destruct y_pred; [destruct y_true; [congruence|discriminate]|discriminate].
Qed.

(** [r2_score] before the final division is decided. *)
Lemma r2_score_raw (y_true y_pred : list R) :
  length y_true = length y_pred -> y_true <> [] ->
  r2_score (lift y_true) (lift y_pred) =
  Ok (x_sub (Fin 1)
        (x_div (Fin (sum_sq_diff y_true y_pred))
               (Fin (sum_sq_dev (arithmetic_mean y_true) y_true)))).
Proof.
  intros L N. unfold r2_score.
  rewrite broadcast1_same by now rewrite !lift_length.
  cbn [bind]. cbv zeta.
  rewrite zip_with_sub_lift, square_lift, np_sum_lift, sum_sq_diff_eq.
  rewrite np_mean_lift by exact N.
  now rewrite sub_const_lift, square_lift, np_sum_lift, sum_sq_dev_eq.
Qed.

Lemma zero_variance_sum_sq_dev (l : list R) :
  l <> [] -> population_variance l = 0 ->
  sum_sq_dev (arithmetic_mean l) l = 0.
Proof.
  intros N V. pose proof (INR_length_pos l N) as P.
  unfold population_variance in V. apply Rmult_integral in V.
  destruct V as [V|V]; [exact V|].
  pose proof (Rinv_0_lt_compat _ P). lra.
Qed.

(** X9: in exact arithmetic, for targets and predictions of the same
    positive length where the targets have zero variance, [r2_score] raises
    nothing and returns no number: NaN (0/0) when every prediction equals its
    target, and minus infinity otherwise. *)
Theorem r2_score_constant_targets (y_true y_pred : list R) :
  length y_true = length y_pred -> y_true <> [] ->
  population_variance y_true = 0 ->
  (y_pred = y_true -> r2_score (lift y_true) (lift y_pred) = Ok NaN) /\
  (y_pred <> y_true -> r2_score (lift y_true) (lift y_pred) = Ok (Inf true)).
Proof.
  intros L N V.
  rewrite (r2_score_raw y_true y_pred L N).
  rewrite (zero_variance_sum_sq_dev y_true N V).
  pose proof (sum_sq_diff_nonneg y_true y_pred) as Q.
  pose proof (sum_sq_diff_zero_iff y_true y_pred L) as Z.
  unfold x_div. destruct (Req_EM_T 0 0) as [_|N0]; [|now elim N0].
  destruct (Req_EM_T (sum_sq_diff y_true y_pred) 0) as [E|E].
  - split; [reflexivity|]. intros D. apply Z in E. contradiction.
  - split; [intros D; apply Z in D; contradiction|]. intros _.
    unfold Rneg.
    destruct (Rlt_dec (sum_sq_diff y_true y_pred) 0) as [Lt|_]; [lra|].
    reflexivity.
Qed.

Lemma sum_sq_diff_repeat (l : list R) (c : R) (n : nat) :
  length l = n -> sum_sq_diff l (repeat c n) = sum_sq_dev c l.
Proof.
  intros <-. unfold sum_sq_diff, sum_sq_dev.
  induction l as [|x l IH]; [reflexivity|].
  cbn [length repeat zip_with map sumR fold_right].
  unfold sumR in IH. now rewrite IH.
Qed.

(** X10: predicting the mean of the targets for every sample scores zero:
    in exact arithmetic, on targets of nonzero variance, [r2_score] of the
    one-element prediction [mean(y_true)] (which it stretches) is 0. *)
Theorem r2_score_of_mean_is_zero (y_true : list R) :
  y_true <> [] -> population_variance y_true <> 0 ->
  r2_score (lift y_true) [Fin (arithmetic_mean y_true)] = Ok (Fin 0).
Proof.
  intros N V.
  assert (S : r2_score (lift y_true) [Fin (arithmetic_mean y_true)] =
              r2_score (lift y_true)
                (lift (repeat (arithmetic_mean y_true) (length y_true)))).
  { replace (lift (repeat (arithmetic_mean y_true) (length y_true)))
      with (repeat (Fin (arithmetic_mean y_true)) (length (lift y_true)))
      by (rewrite lift_length; symmetry; apply map_repeat).
    unfold r2_score. now rewrite broadcast1_scalar. }
  rewrite S, r2_score_exact; try assumption.
  - unfold R2_spec. rewrite sum_sq_diff_repeat by reflexivity.
    pose proof (variance_sum_sq_dev y_true N V). do 2 f_equal. field. lra.
  - now rewrite repeat_length.
Qed.

End EvaluatorEdges.

Lemma variance_5_5 : (population_variance [5; 5] = 0)%R.
Proof.
  unfold population_variance, sum_sq_dev, arithmetic_mean, sumR.
  simpl. lra.
Qed.

Lemma mean_squared_error_zero_iff_witness :
  exists e : R,
    mean_squared_error (lift [0; 1]%R) (lift [1; 1]%R) = Ok (Fin e) /\
    (0 <= e)%R /\
    (e = 0%R <-> [1; 1]%R = [0; 1]%R) /\
    mean_squared_error (lift [1; 1]%R) (lift [0; 1]%R) = Ok (Fin e).
Proof.
  apply (mean_squared_error_zero_iff [0; 1]%R [1; 1]%R);
    [reflexivity | discriminate].
Defined.

Lemma r2_score_constant_targets_witness :
  ([5; 4]%R = [5; 5]%R ->
   r2_score (lift [5; 5]%R) (lift [5; 4]%R) = Ok NaN) /\
  ([5; 4]%R <> [5; 5]%R ->
   r2_score (lift [5; 5]%R) (lift [5; 4]%R) = Ok (Inf true)).
Proof.
  apply (r2_score_constant_targets [5; 5]%R [5; 4]%R);
    [reflexivity | discriminate | exact variance_5_5].
Defined.

Lemma r2_score_of_mean_is_zero_witness :
  r2_score (lift [0; 1]%R) [Fin (arithmetic_mean [0; 1]%R)] = Ok (Fin 0).
Proof.
  apply (r2_score_of_mean_is_zero [0; 1]%R); [discriminate | exact variance_0_1].
Defined.

(** ** An empty dataset *)

Lemma map_const_seq {A : Type} (c : A) (s n : nat) :
  map (fun _ => c) (seq s n) = repeat c n.
Proof.
  revert s; induction n as [|n IH]; intros s; simpl; [reflexivity|].
  now rewrite IH.
Qed.

Lemma normalize_no_rows {F : Type} `{FloatOps F} (m : nat) :
  np_mean (@nil F) = f_nan -> f_sqrt f_nan = f_nan ->
  normalize (Matrix m (@nil (list F))) =
  Ok (Matrix m [], repeat f_nan m, repeat f_nan m).
Proof.
  intros M S. rewrite normalize_eq. cbn [ncols rows map].
  unfold np_mean_axis0, np_std_axis0, column, np_std, np_var.
  cbn [ncols rows map square]. rewrite M, S.
  now rewrite !map_const_seq.
Qed.

(** X11: a dataset without rows raises nothing.  In exact arithmetic and in
    binary64 alike, [normalize] returns the empty array with NaN for every
    mean and standard deviation (0/0), and both evaluators return NaN on
    empty vectors. *)
Theorem empty_dataset_gives_nan (m : nat) :
  (normalize (Matrix m (@nil (list xreal))) =
   Ok (Matrix m [], repeat NaN m, repeat NaN m) /\
   mean_squared_error (@nil xreal) [] = Ok NaN /\
   r2_score (@nil xreal) [] = Ok NaN) /\
  (normalize (Matrix m (@nil (list float))) =
   Ok (Matrix m [], repeat PrimFloat.nan m, repeat PrimFloat.nan m) /\
   mean_squared_error (@nil float) [] = Ok PrimFloat.nan /\
   r2_score (@nil float) [] = Ok PrimFloat.nan).
Proof.
  assert (Z : x_div (Fin 0) (Fin (INR 0)) = NaN) by apply x_div_zero_zero.
  split; split.
  - apply (@normalize_no_rows xreal xreal_ops m); [exact Z | reflexivity].
  - split; cbv [mean_squared_error r2_score broadcast1 length Nat.eqb bind
                zip_with square map np_mean np_sum fold_left
                f_div f_sub f_zero f_one f_of_nat xreal_ops].
    + apply f_equal, x_div_zero_zero.
    + rewrite x_div_zero_zero. reflexivity.
  - apply (@normalize_no_rows float binary64 m); vm_compute; reflexivity.
  - split; vm_compute; reflexivity.
Qed.

(** ** Normalisation as an operation: standard scores, idempotence, units *)

Section NormalizeAlgebra.
Local Open Scope R_scope.

Lemma normalized_row_lift (means stds r : list R) :
  Forall (fun s => s <> 0) stds ->
  normalized_row means stds r =
  lift (zip_with Rdiv (zip_with Rminus r means) stds).
Proof.
  unfold normalized_row, lift. intros NZ. revert r means.
  induction NZ as [|s stds Ns NZ IH]; intros [|x r] [|mu means];
    cbn [map zip_with]; try reflexivity.
  f_equal; [|apply IH].
  change (x_sub (Fin x) (Fin mu)) with (Fin (x - mu)).
  now apply x_div_fin.
Qed.

Lemma column_stds_nonzero (m : nat) (X : list (list R)) :
  (forall j : nat, (j < m)%nat -> population_variance (colR j X) <> 0) ->
  Forall (fun s => s <> 0) (column_stds m X).
Proof.
  intros V. unfold column_stds. apply Forall_map, Forall_forall.
  intros j Hj. apply in_seq in Hj. apply population_std_nonzero, V. lia.
Qed.

(** With no constant column, [normalize] returns the standard scores. *)
Lemma normalize_scores (n m : nat) (X : list (list R)) :
  is_matrix n m X -> (0 < n)%nat ->
  (forall j : nat, (j < m)%nat -> population_variance (colR j X) <> 0) ->
  normalize (liftM m X) =
  Ok (liftM m (standard_scores m X),
      lift (column_means m X), lift (column_stds m X)).
Proof.
  intros IM Hn V. rewrite (normalize_exact n m X IM Hn).
  assert (E : map (normalized_row (column_means m X) (column_stds m X)) X =
              map lift (standard_scores m X)).
  { unfold standard_scores. rewrite map_map.
    apply map_ext. intros r. apply normalized_row_lift.
    now apply column_stds_nonzero. }
  now rewrite E.
Qed.

Lemma standard_scores_is_matrix (n m : nat) (X : list (list R)) :
  is_matrix n m X -> is_matrix n m (standard_scores m X).
Proof.
  intros [L W]. unfold standard_scores. split.
  - now rewrite length_map.
  - apply Forall_map. revert W. apply Forall_impl. intros r Lr.
    rewrite !zip_with_length, column_means_length, column_stds_length. lia.
Qed.

Lemma colR_standard_scores (n m j : nat) (X : list (list R)) :
  is_matrix n m X -> (j < m)%nat ->
  colR j (standard_scores m X) =
  map (fun x => (x - arithmetic_mean (colR j X)) / population_std (colR j X))
      (colR j X).
Proof.
  intros [_ W] Hj. unfold colR, standard_scores. rewrite !map_map.
  apply map_ext_Forall. revert W. apply Forall_impl. intros r Lr.
  rewrite (nth_zip_with Rdiv _ _ j 0 0 0)
    by (rewrite ?zip_with_length, ?column_means_length, ?column_stds_length; lia).
  rewrite (nth_zip_with Rminus _ _ j 0 0 0)
    by (rewrite ?column_means_length; lia).
  now rewrite nth_column_means, nth_column_stds.
Qed.

Lemma standard_scores_statistics (n m : nat) (X : list (list R)) :
  is_matrix n m X -> (0 < n)%nat ->
  (forall j : nat, (j < m)%nat -> population_variance (colR j X) <> 0) ->
  column_means m (standard_scores m X) = repeat 0 m /\
  column_stds m (standard_scores m X) = repeat 1 m.
Proof.
  intros IM Hn V. unfold column_means, column_stds.
  rewrite <- (map_const_seq 0 0 m), <- (map_const_seq 1 0 m).
  split; apply map_ext_in; intros j Hj; apply in_seq in Hj;
    rewrite (colR_standard_scores n m j X IM) by lia;
    pose proof (colR_nonempty n m j X IM Hn) as NE.
  - now apply arithmetic_mean_standardized.
  - unfold population_std at 1.
    rewrite population_variance_standardized; [apply sqrt_1 | exact NE|].
    apply V. lia.
Qed.

Lemma standardize_standard (r : list R) :
  zip_with Rdiv (zip_with Rminus r (repeat 0 (length r))) (repeat 1 (length r)) = r.
Proof.
  induction r as [|x r IH]; cbn [length repeat zip_with]; [reflexivity|].
  rewrite IH. f_equal. field.
Qed.

(** X12: normalising twice changes nothing.  In exact arithmetic, when no
    column of [X] is constant, [normalize] applied to its own output returns
    that output again, with means 0 and standard deviations 1. *)
Theorem normalize_idempotent (n m : nat) (X : list (list R)) :
  is_matrix n m X -> (0 < n)%nat ->
  (forall j : nat, (j < m)%nat -> population_variance (colR j X) <> 0) ->
  exists (X_normalized : matrix xreal) (mean std : list xreal),
    normalize (liftM m X) = Ok (X_normalized, mean, std) /\
    normalize X_normalized =
    Ok (X_normalized, repeat (Fin 0) m, repeat (Fin 1) m).
Proof.
  intros IM Hn V. do 3 eexists.
  split; [now apply (normalize_scores n m)|].
  pose proof (standard_scores_is_matrix n m X IM) as IZ.
  destruct (standard_scores_statistics n m X IM Hn V) as [M S].
  rewrite (normalize_exact n m _ IZ Hn), M, S.
  assert (E : map (normalized_row (repeat 0 m) (repeat 1 m)) (standard_scores m X)
              = map lift (standard_scores m X)).
  { apply map_ext_Forall.
    destruct IZ as [_ W]. revert W. apply Forall_impl. intros r Lr.
    rewrite normalized_row_lift
      by (apply Forall_forall; intros s I; apply repeat_spec in I; lra).
    rewrite <- Lr. now rewrite standardize_standard. }
  rewrite E. unfold lift at 2 3. now rewrite !map_repeat.
Qed.

(** Statistics of a column under a change of units. *)
Lemma sumR_affine (l : list R) (a c : R) :
  sumR (map (fun x => a * x + c) l) = a * sumR l + INR (length l) * c.
Proof.
  induction l as [|x l IH].
  - simpl. ring.
  - cbn [map sumR fold_right length]. fold (sumR (map (fun x => a * x + c) l)).
    fold (sumR l). rewrite IH, S_INR. ring.
Qed.

Lemma arithmetic_mean_affine (l : list R) (a c : R) :
  l <> [] ->
  arithmetic_mean (map (fun x => a * x + c) l) = a * arithmetic_mean l + c.
Proof.
  intros N. pose proof (INR_length_pos l N) as P.
  unfold arithmetic_mean. rewrite sumR_affine, length_map. field. lra.
Qed.

Lemma sum_sq_dev_affine (l : list R) (a c mu : R) :
  sum_sq_dev (a * mu + c) (map (fun x => a * x + c) l) = a * a * sum_sq_dev mu l.
Proof.
  unfold sum_sq_dev. induction l as [|x l IH].
  - simpl. ring.
  - cbn [map sumR fold_right]. unfold sumR in IH. rewrite IH. ring.
Qed.

Lemma population_std_affine (l : list R) (a c : R) :
  l <> [] -> 0 <= a ->
  population_std (map (fun x => a * x + c) l) = a * population_std l.
Proof.
  intros N A. unfold population_std, population_variance.
  rewrite arithmetic_mean_affine by exact N.
  rewrite sum_sq_dev_affine, length_map.
  replace (a * a * sum_sq_dev (arithmetic_mean l) l / INR (length l))
    with (a * a * (sum_sq_dev (arithmetic_mean l) l / INR (length l)))
    by (unfold Rdiv; ring).
  rewrite sqrt_mult_alt by (apply Rmult_le_pos; exact A).
  now rewrite sqrt_square.
Qed.

Lemma x_div_scale (a u s : R) :
  0 < a -> x_div (Fin (a * u)) (Fin (a * s)) = x_div (Fin u) (Fin s).
Proof.
  intros A. unfold x_div.
  destruct (Req_EM_T s 0) as [S0|S0].
  - subst s. rewrite Rmult_0_r.
    destruct (Req_EM_T 0 0) as [_|N0]; [|now elim N0].
    destruct (Req_EM_T u 0) as [U0|U0].
    + subst u. rewrite Rmult_0_r.
      destruct (Req_EM_T 0 0) as [_|N0]; [reflexivity|now elim N0].
    + destruct (Req_EM_T (a * u) 0) as [Z|_].
      * apply Rmult_integral in Z. destruct Z; [lra|contradiction].
      * f_equal. unfold Rneg.
        destruct (Rlt_dec (a * u) 0), (Rlt_dec u 0); try reflexivity; nra.
  - destruct (Req_EM_T (a * s) 0) as [Z|_].
    + apply Rmult_integral in Z. destruct Z; [lra|contradiction].
    + f_equal. field. split; lra.
Qed.

Lemma colR_rescale (n m j : nat) (a c : list R) (X : list (list R)) :
  is_matrix n m X -> length a = m -> length c = m -> (j < m)%nat ->
  colR j (rescale a c X) = map (fun x => nth j a 0 * x + nth j c 0) (colR j X).
Proof.
  intros [_ W] La Lc Hj. unfold colR, rescale. rewrite !map_map.
  apply map_ext_Forall. revert W. apply Forall_impl. intros r Lr.
  rewrite (nth_zip_with Rplus _ _ j 0 0 0)
    by (rewrite ?zip_with_length; lia).
  now rewrite (nth_zip_with Rmult _ _ j 0 0 0) by lia.
Qed.

Lemma rescale_is_matrix (n m : nat) (a c : list R) (X : list (list R)) :
  is_matrix n m X -> length a = m -> length c = m ->
  is_matrix n m (rescale a c X).
Proof.
  intros [L W] La Lc. unfold rescale. split.
  - now rewrite length_map.
  - apply Forall_map. revert W. apply Forall_impl. intros r Lr.
    rewrite !zip_with_length. lia.
Qed.

(** X13: the normalised features do not depend on the units of the columns.
    In exact arithmetic, replacing every column j of [X] by [a_j * x + c_j]
    with [a_j > 0] leaves the array returned by [normalize] unchanged, NaN
    and infinite entries of constant columns included; the returned mean
    becomes [a_j * mean_j + c_j] and the standard deviation [a_j * std_j]. *)
Theorem normalize_unit_invariant (n m : nat) (a c : list R) (X : list (list R)) :
  is_matrix n m X -> (0 < n)%nat ->
  length a = m -> length c = m -> Forall (fun x => 0 < x) a ->
  exists (X_normalized : matrix xreal) (mean std mean' std' : list xreal),
    normalize (liftM m X) = Ok (X_normalized, mean, std) /\
    normalize (liftM m (rescale a c X)) = Ok (X_normalized, mean', std') /\
    forall j : nat, (j < m)%nat ->
      nth j mean' NaN = f_add (f_mul (Fin (nth j a 0)) (nth j mean NaN))
                              (Fin (nth j c 0)) /\
      nth j std' NaN = f_mul (Fin (nth j a 0)) (nth j std NaN).
Proof.
  intros IM Hn La Lc Pa.
  pose proof (rescale_is_matrix n m a c X IM La Lc) as IM'.
  assert (Aj : forall j, (j < m)%nat -> 0 < nth j a 0).
  { intros j Hj. rewrite Forall_forall in Pa. apply Pa, nth_In. lia. }
  assert (Mj : forall j, (j < m)%nat ->
             nth j (column_means m (rescale a c X)) 0 =
             nth j a 0 * nth j (column_means m X) 0 + nth j c 0).
  { intros j Hj. rewrite !nth_column_means by exact Hj.
    rewrite (colR_rescale n m j a c X IM La Lc Hj).
    apply arithmetic_mean_affine. now apply (colR_nonempty n m j X IM). }
  assert (Sj : forall j, (j < m)%nat ->
             nth j (column_stds m (rescale a c X)) 0 =
             nth j a 0 * nth j (column_stds m X) 0).
  { intros j Hj. rewrite !nth_column_stds by exact Hj.
    rewrite (colR_rescale n m j a c X IM La Lc Hj).
    apply population_std_affine.
    - now apply (colR_nonempty n m j X IM).
    - apply Rlt_le, Aj, Hj. }
  do 5 eexists.
  split; [now apply (normalize_exact n m)|].
  split.
  - rewrite (normalize_exact n m _ IM' Hn).
    match goal with
    | |- Ok (Matrix _ ?A, _, _) = Ok (Matrix _ ?B, _, _) =>
      assert (E : A = B); [|now rewrite E]
    end.
    unfold rescale in *. rewrite map_map. apply map_ext_Forall.
    destruct IM as [_ W]. revert W. apply Forall_impl. intros r Lr.
    apply (nth_ext _ _ NaN NaN).
    + unfold normalized_row.
      rewrite !zip_with_length, !lift_length, !zip_with_length,
        !column_means_length, !column_stds_length. lia.
    + intros j Hj. unfold normalized_row in Hj.
      rewrite !zip_with_length, !lift_length, !zip_with_length,
        column_means_length, column_stds_length in Hj.
      assert (Hm : (j < m)%nat) by lia.
      rewrite (nth_normalized_row _ _ _ m j), (nth_normalized_row _ _ _ m j);
        rewrite ?column_means_length, ?column_stds_length, ?zip_with_length;
        try lia.
      rewrite (nth_zip_with Rplus _ _ j 0 0 0)
        by (rewrite ?zip_with_length; lia).
      rewrite (nth_zip_with Rmult _ _ j 0 0 0) by lia.
      rewrite (Mj j Hm), (Sj j Hm).
      replace (nth j a 0 * nth j r 0 + nth j c 0 -
               (nth j a 0 * nth j (column_means m X) 0 + nth j c 0))
        with (nth j a 0 * (nth j r 0 - nth j (column_means m X) 0)) by ring.
      apply x_div_scale, Aj, Hm.
  - intros j Hj.
    rewrite !nth_lift by now rewrite ?column_means_length, ?column_stds_length.
    rewrite (Mj j Hj), (Sj j Hj). split; reflexivity.
Qed.

End NormalizeAlgebra.

Lemma normalize_idempotent_witness :
  exists (X_normalized : matrix xreal) (mean std : list xreal),
    normalize (liftM 1 [[1]; [3]]%R) = Ok (X_normalized, mean, std) /\
    normalize X_normalized =
    Ok (X_normalized, repeat (Fin 0) 1, repeat (Fin 1) 1).
Proof.
  apply (normalize_idempotent 2 1 [[1]; [3]]%R);
    [exact is_matrix_2_1 | lia | exact variance_2_1].
Defined.

Lemma normalize_unit_invariant_witness :
  exists (X_normalized : matrix xreal) (mean std mean' std' : list xreal),
    normalize (liftM 1 [[1]; [3]]%R) = Ok (X_normalized, mean, std) /\
    normalize (liftM 1 (rescale [2]%R [5]%R [[1]; [3]]%R))
    = Ok (X_normalized, mean', std') /\
    forall j : nat, j < 1 ->
      nth j mean' NaN = f_add (f_mul (Fin (nth j [2]%R 0%R)) (nth j mean NaN))
                              (Fin (nth j [5]%R 0%R)) /\
      nth j std' NaN = f_mul (Fin (nth j [2]%R 0%R)) (nth j std NaN).
Proof.
  apply (normalize_unit_invariant 2 1 [2]%R [5]%R [[1]; [3]]%R);
    [exact is_matrix_2_1 | lia | reflexivity | reflexivity
    | repeat constructor; lra].
Defined.

(** ** The fitted model, in exact arithmetic *)

Section TrainingFit.
Local Open Scope R_scope.

Lemma zip_cons_ones_lift (Z : list (list R)) :
  zip_with cons (repeat (Fin 1) (length (map lift Z))) (map lift Z) =
  map lift (map (cons 1) Z).
Proof.
  induction Z as [|z Z IH]; cbn [map length repeat zip_with]; [reflexivity|].
  now rewrite IH.
Qed.

Lemma add_bias_liftM (m : nat) (Z : list (list R)) :
  add_bias (liftM m Z) = Ok (liftM (S m) (map (cons 1) Z)).
Proof.
  rewrite add_bias_eq. unfold nrows, np_ones, liftM. cbn [rows ncols].
  now rewrite zip_cons_ones_lift.
Qed.

Lemma normal_equation_exact
  (linalg_inv : matrix xreal -> result (matrix xreal))
  (r k : nat) (X G : list (list R)) (y : list R) :
  is_matrix r k X -> length y = r -> is_matrix k k G ->
  linalg_inv (liftM k (gramR k X)) = Ok (liftM k G) ->
  normal_equation linalg_inv (liftM k X) (lift y) =
  Ok (lift (mvecR G (mvecR (transposeR k X) y))).
Proof.
  intros IM Ly IG Inv.
  pose proof (transposeR_is_matrix r k X IM) as IT.
  unfold normal_equation.
  rewrite (transpose_liftM r k X IM).
  rewrite (matmul_liftM r k (transposeR k X) X IM). cbn [bind].
  fold (gramR k X). rewrite Inv. cbn [bind].
  rewrite (matmul_liftM k r G (transposeR k X) IT). cbn [bind].
  rewrite (matvec_liftM r _ y Ly). do 2 f_equal.
  apply mvecR_assoc. apply IT.
Qed.

Lemma normal_equations_hold (r k : nat) (X G : list (list R)) (y : list R) :
  is_matrix r k X -> inverse_of k (gramR k X) G ->
  mvecR (gramR k X) (mvecR G (mvecR (transposeR k X) y)) =
  mvecR (transposeR k X) y.
Proof.
  intros IM [IG [_ AG]].
  rewrite <- (mvecR_assoc k (gramR k X) G) by apply IG.
  rewrite AG. apply mvecR_identity.
  rewrite mvecR_length. now apply (transposeR_is_matrix r k X).
Qed.

(** A solution of the normal equations has the least sum of squared
    residuals. *)
Lemma least_squares_minimal (r k : nat) (X : list (list R)) (y theta b : list R) :
  is_matrix r k X -> length y = r -> length theta = k -> length b = k ->
  mvecR (gramR k X) theta = mvecR (transposeR k X) y ->
  sum_sq_diff (mvecR X theta) y <= sum_sq_diff (mvecR X b) y.
Proof.
  intros IM Ly Lt Lb NE.
  rewrite (sum_sq_diff_expand (mvecR X b) (mvecR X theta) y)
    by (rewrite !mvecR_length; destruct IM; congruence).
  rewrite <- mvecR_minus by congruence.
  rewrite (dotR_adjoint k) by apply IM.
  rewrite mvecR_minus by (rewrite mvecR_length; destruct IM; congruence).
  rewrite <- (mvecR_assoc k (transposeR k X) X) by apply IM.
  fold (gramR k X). rewrite NE, dotR_minus_self.
  pose proof (sum_sq_diff_nonneg (mvecR X b) (mvecR X theta)). lra.
Qed.

Lemma design_is_matrix (n m : nat) (X : list (list R)) :
  is_matrix n m X -> is_matrix n (S m) (design m X).
Proof.
  intros IM. destruct (standard_scores_is_matrix n m X IM) as [L W].
  unfold design. split.
  - now rewrite length_map.
  - apply Forall_map. revert W. apply Forall_impl. intros z Lz.
    simpl. now rewrite Lz.
Qed.

Lemma dotR_ones (v : list R) : dotR (repeat 1 (length v)) v = sumR v.
Proof.
  induction v as [|x v IH]; [reflexivity|].
  cbn [length repeat]. rewrite dotR_cons, IH. simpl. ring.
Qed.

Lemma dotR_zeros_r (u : list R) (n : nat) : dotR u (repeat 0 n) = 0.
Proof.
  rewrite dotR_comm, <- (map_const_seq 0 0 n). apply dotR_zeros.
Qed.

Lemma map_const_repeat {A B : Type} (c : B) (l : list A) :
  map (fun _ => c) l = repeat c (length l).
Proof.
  induction l as [|a l IH]; simpl; congruence.
Qed.

(** The first normal equation of a design matrix: the predictions and the
    targets have the same sum. *)
Lemma first_normal_equation (k : nat) (Z : list (list R)) (theta y : list R) :
  Forall (fun z => length z = k) Z -> length y = length Z ->
  mvecR (gramR (S k) (map (cons 1) Z)) theta =
  mvecR (transposeR (S k) (map (cons 1) Z)) y ->
  sumR (mvecR (map (cons 1) Z) theta) = sumR y.
Proof.
  intros W Ly NE.
  assert (WB : Forall (fun b => length b = S k) (map (cons 1) Z)).
  { apply Forall_map. revert W. apply Forall_impl. intros z Lz.
    simpl. now rewrite Lz. }
  unfold gramR in NE. rewrite (mvecR_assoc (S k)) in NE by exact WB.
  unfold transposeR in NE. cbn [seq map mvecR] in NE.
  injection NE as NE _.
  assert (C0 : colR 0 (map (cons 1) Z) = repeat 1 (length Z)).
  { unfold colR. rewrite map_map. cbn [nth]. apply map_const_repeat. }
  rewrite C0 in NE.
  rewrite <- (dotR_ones y), Ly, <- NE.
  rewrite <- (length_map (cons 1) Z), <- (mvecR_length (map (cons 1) Z) theta).
  symmetry. apply dotR_ones.
Qed.

(** The columns of the standard scores sum to zero. *)
Lemma standard_scores_column_sum (n m j : nat) (X : list (list R)) :
  is_matrix n m X -> (0 < n)%nat -> (j < m)%nat ->
  sumR (colR j (standard_scores m X)) = 0.
Proof.
  intros IM Hn Hj. rewrite (colR_standard_scores n m j X IM Hj).
  pose proof (colR_nonempty n m j X IM Hn) as NE.
  pose proof (INR_length_pos _ NE) as P.
  rewrite sumR_standardized.
  replace (sumR (colR j X) - INR (length (colR j X)) * arithmetic_mean (colR j X))
    with 0 by (unfold arithmetic_mean; field; lra).
  unfold Rdiv. ring.
Qed.

(** The predictions of a design matrix whose feature columns sum to zero
    add up to N times the intercept. *)
Lemma sum_of_predictions (m : nat) (Z : list (list R)) (t0 : R) (t : list R) :
  Forall (fun z => length z = m) Z ->
  (forall j : nat, (j < m)%nat -> sumR (colR j Z) = 0) ->
  sumR (mvecR (map (cons 1) Z) (t0 :: t)) = INR (length Z) * t0.
Proof.
  intros W C.
  assert (E : mvecR (map (cons 1) Z) (t0 :: t) =
              map (fun x => 1 * x + t0) (mvecR Z t)).
  { unfold mvecR. rewrite !map_map. apply map_ext. intros z.
    rewrite dotR_cons. ring. }
  rewrite E, sumR_affine, mvecR_length.
  assert (S0 : sumR (mvecR Z t) = 0).
  { rewrite <- dotR_ones, dotR_comm, mvecR_length.
    rewrite (dotR_adjoint m) by exact W.
    unfold mvecR, transposeR. rewrite map_map.
    rewrite (map_ext_in _ (fun _ => 0)).
    - rewrite map_const_seq. apply dotR_zeros_r.
    - intros j Hj. apply in_seq in Hj.
      rewrite <- (colR_length j Z), dotR_comm, dotR_ones. apply C. lia. }
  rewrite S0. ring.
Qed.

(** The constant prediction [c] is the prediction of the coefficients
    [(c, 0, ..., 0)]. *)
Lemma constant_prediction (m : nat) (Z : list (list R)) (c : R) :
  mvecR (map (cons 1) Z) (c :: repeat 0 m) = repeat c (length Z).
Proof.
  unfold mvecR. rewrite map_map, <- map_const_repeat.
  apply map_ext. intros z. rewrite dotR_cons, dotR_zeros_r. ring.
Qed.

(** The training cells on finite data without a constant column. *)
Lemma train_exact (linalg_inv : matrix xreal -> result (matrix xreal))
  (n m : nat) (X G : list (list R)) (y : list R) :
  is_matrix n m X -> (0 < n)%nat ->
  (forall j : nat, (j < m)%nat -> population_variance (colR j X) <> 0) ->
  length y = n ->
  is_matrix (S m) (S m) G ->
  linalg_inv (liftM (S m) (gramR (S m) (design m X))) = Ok (liftM (S m) G) ->
  exists mse r2 : xreal,
    mean_squared_error (lift y)
      (lift (mvecR (design m X)
               (mvecR G (mvecR (transposeR (S m) (design m X)) y)))) = Ok mse /\
    r2_score (lift y)
      (lift (mvecR (design m X)
               (mvecR G (mvecR (transposeR (S m) (design m X)) y)))) = Ok r2 /\
    train linalg_inv (liftM m X) (lift y) =
    Ok (Fitted (lift (column_means m X)) (lift (column_stds m X))
          (liftM (S m) (design m X))
          (lift (mvecR G (mvecR (transposeR (S m) (design m X)) y)))
          (lift (mvecR (design m X)
                   (mvecR G (mvecR (transposeR (S m) (design m X)) y))))
          mse r2).
Proof.
  intros IM Hn V Ly IG Inv.
  pose proof (design_is_matrix n m X IM) as IB.
  set (theta := mvecR G (mvecR (transposeR (S m) (design m X)) y)).
  set (y_pred := mvecR (design m X) theta).
  assert (Lp : length (lift y) = length (lift y_pred)).
  { unfold y_pred. rewrite !lift_length, mvecR_length. destruct IB; congruence. }
  assert (Lt : length theta = S m).
  { unfold theta. rewrite mvecR_length. apply IG. }
  unfold train.
  rewrite (normalize_scores n m X IM Hn V). cbn [bind].
  rewrite add_bias_liftM. cbn [bind]. fold (design m X).
  rewrite (normal_equation_exact linalg_inv n (S m) (design m X) G y IB Ly IG Inv).
  cbn [bind]. fold theta.
  rewrite (matvec_liftM (S m) (design m X) theta Lt). cbn [bind]. fold y_pred.
  unfold mean_squared_error, r2_score.
  rewrite !broadcast1_same by exact Lp. cbn [bind].
  do 2 eexists. repeat split; reflexivity.
Qed.

(** X14: the intercept is the mean target.  In exact arithmetic, on finite
    data without a constant feature column, when [np.linalg.inv] returns the
    inverse of the Gram matrix, the training cells succeed with one
    coefficient per feature plus one and one prediction per row; theta[0]
    is the arithmetic mean of [y], and the predictions have the same sum
    (hence the same mean) as the targets. *)
Theorem train_intercept_is_mean
  (linalg_inv : matrix xreal -> result (matrix xreal))
  (n m : nat) (X G : list (list R)) (y : list R) :
  is_matrix n m X -> (0 < n)%nat ->
  (forall j : nat, (j < m)%nat -> population_variance (colR j X) <> 0) ->
  length y = n ->
  inverse_of (S m) (gramR (S m) (design m X)) G ->
  linalg_inv (liftM (S m) (gramR (S m) (design m X))) = Ok (liftM (S m) G) ->
  exists (fit : fitted xreal) (theta y_pred : list R),
    train linalg_inv (liftM m X) (lift y) = Ok fit /\
    fit_theta fit = lift theta /\ length theta = S m /\
    fit_y_pred fit = lift y_pred /\ length y_pred = n /\
    nth 0 theta 0 = arithmetic_mean y /\
    sumR y_pred = sumR y.
Proof.
  intros IM Hn V Ly IV Inv.
  pose proof (design_is_matrix n m X IM) as IB.
  pose proof (standard_scores_is_matrix n m X IM) as IZ.
  pose proof (normal_equations_hold n (S m) (design m X) G y IB IV) as NE.
  destruct IV as [IG _].
  destruct (train_exact linalg_inv n m X G y IM Hn V Ly IG Inv)
    as [mse [r2 [_ [_ T]]]].
  set (theta := mvecR G (mvecR (transposeR (S m) (design m X)) y)) in *.
  assert (Lt : length theta = S m).
  { unfold theta. rewrite mvecR_length. apply IG. }
  assert (Sp : sumR (mvecR (design m X) theta) = sumR y).
  { apply (first_normal_equation m); [apply IZ | | exact NE].
    destruct IZ; congruence. }
  eexists. exists theta, (mvecR (design m X) theta).
  split; [exact T|]. cbn [fit_theta fit_y_pred].
  repeat split; auto.
  - rewrite mvecR_length. apply IB.
  - destruct theta as [|t0 t]; [discriminate|].
    unfold design in Sp. rewrite (sum_of_predictions m) in Sp.
    + cbn [nth]. unfold arithmetic_mean.
      destruct IZ as [LZ _]. rewrite LZ, <- Ly in Sp.
      assert (P : 0 < INR (length y)) by (apply lt_0_INR; lia).
      rewrite <- Sp. field. lra.
    + apply IZ.
    + intros j Hj. now apply (standard_scores_column_sum n m j X).
Qed.

(** X15: the fit is never worse than predicting the mean.  Under the same
    conditions and for targets of nonzero variance, the training R² is a
    number between 0 and 1, and the training MSE lies between 0 and the
    population variance of the targets. *)
Theorem train_r2_between_0_and_1
  (linalg_inv : matrix xreal -> result (matrix xreal))
  (n m : nat) (X G : list (list R)) (y : list R) :
  is_matrix n m X -> (0 < n)%nat ->
  (forall j : nat, (j < m)%nat -> population_variance (colR j X) <> 0) ->
  length y = n -> population_variance y <> 0 ->
  inverse_of (S m) (gramR (S m) (design m X)) G ->
  linalg_inv (liftM (S m) (gramR (S m) (design m X))) = Ok (liftM (S m) G) ->
  exists (fit : fitted xreal) (r2 mse : R),
    train linalg_inv (liftM m X) (lift y) = Ok fit /\
    fit_r2 fit = Fin r2 /\ 0 <= r2 <= 1 /\
    fit_mse fit = Fin mse /\ 0 <= mse <= population_variance y.
Proof.
  intros IM Hn V Ly Vy IV Inv.
  pose proof (design_is_matrix n m X IM) as IB.
  pose proof (normal_equations_hold n (S m) (design m X) G y IB IV) as NE.
  destruct IV as [IG _].
  destruct (train_exact linalg_inv n m X G y IM Hn V Ly IG Inv)
    as [mse [r2 [Em [Er T]]]].
  set (theta := mvecR G (mvecR (transposeR (S m) (design m X)) y)) in *.
  set (y_pred := mvecR (design m X) theta) in *.
  assert (Ny : y <> []) by (intros ->; simpl in Ly; lia).
  assert (Lp : length y = length y_pred).
  { unfold y_pred. rewrite mvecR_length. destruct IB; congruence. }
  assert (Lt : length theta = S m).
  { unfold theta. rewrite mvecR_length. apply IG. }
  rewrite (mean_squared_error_exact y y_pred Lp Ny) in Em.
  rewrite (r2_score_exact y y_pred Lp Ny Vy) in Er.
  injection Em as <-. injection Er as <-.
  (* the residual of the fit against that of the mean *)
  assert (M : sum_sq_diff y y_pred <= sum_sq_dev (arithmetic_mean y) y).
  { assert (CP : mvecR (design m X) (arithmetic_mean y :: repeat 0 m) =
                 repeat (arithmetic_mean y) (length y)).
    { unfold design. rewrite constant_prediction.
      unfold standard_scores. rewrite length_map.
      destruct IM as [LX _]. now rewrite LX, Ly. }
    pose proof (least_squares_minimal n (S m) (design m X) y theta
                  (arithmetic_mean y :: repeat 0 m) IB Ly Lt) as LS.
    rewrite CP in LS. fold y_pred in LS.
    rewrite (sum_sq_diff_sym y_pred y) in LS.
    rewrite (sum_sq_diff_sym (repeat _ _) y), sum_sq_diff_repeat in LS
      by reflexivity.
    apply LS; [|exact NE].
    simpl. now rewrite repeat_length. }
  pose proof (sum_sq_diff_nonneg y y_pred) as Q.
  pose proof (variance_sum_sq_dev y Ny Vy) as P.
  pose proof (INR_length_pos y Ny) as PN.
  eexists. exists (R2_spec y y_pred), (MSE_spec y y_pred).
  split; [exact T|]. cbn [fit_r2 fit_mse].
  split; [reflexivity|]. split; [|split; [reflexivity|]].
  - unfold R2_spec.
    assert (D : 0 <= sum_sq_diff y y_pred / sum_sq_dev (arithmetic_mean y) y <= 1).
    { split.
      - apply Rmult_le_pos; [exact Q | apply Rlt_le, Rinv_0_lt_compat, P].
      - apply (Rmult_le_reg_r (sum_sq_dev (arithmetic_mean y) y)); [exact P|].
        unfold Rdiv. rewrite Rmult_assoc, Rinv_l by lra. lra. }
    lra.
  - unfold MSE_spec, population_variance.
    assert (I : 0 < / INR (length y)) by now apply Rinv_0_lt_compat.
    unfold Rdiv. rewrite Rmult_1_l. split.
    + apply Rmult_le_pos; lra.
    + rewrite (Rmult_comm (sum_sq_dev _ _)).
      apply Rmult_le_compat_l; lra.
Qed.

End TrainingFit.

(** The design matrix of the one-column example: scores -1 and 1. *)
Lemma design_2_1 : design 1 [[1]; [3]]%R = [[1; -1]; [1; 1]]%R.
Proof.
  unfold design, standard_scores, column_means, column_stds, colR,
    population_std, population_variance, sum_sq_dev, arithmetic_mean, sumR.
  cbn [seq map nth fold_right length zip_with INR].
  match goal with
  | |- context [sqrt ?e] => replace e with 1%R by lra
  end.
  rewrite sqrt_1. repeat f_equal; lra.
Qed.

Lemma inverse_of_design_2_1 :
  inverse_of 2 (gramR 2 (design 1 [[1]; [3]]%R)) [[/ 2; 0]; [0; / 2]]%R.
Proof.
  rewrite design_2_1.
  unfold inverse_of, is_matrix, gramR, mmulR, transposeR, identityR, colR,
    dotR, sumR.
  simpl. repeat split; repeat constructor; repeat f_equal; lra.
Qed.

Lemma variance_1_3 : (population_variance [1; 3] <> 0)%R.
Proof.
  unfold population_variance, sum_sq_dev, arithmetic_mean, sumR.
  simpl. lra.
Qed.

Lemma train_intercept_is_mean_witness :
  exists (fit : fitted xreal) (theta y_pred : list R),
    train (fun _ => Ok (liftM 2 [[/ 2; 0]; [0; / 2]]%R))
      (liftM 1 [[1]; [3]]%R) (lift [1; 3]%R) = Ok fit /\
    fit_theta fit = lift theta /\ length theta = 2 /\
    fit_y_pred fit = lift y_pred /\ length y_pred = 2 /\
    nth 0 theta 0%R = arithmetic_mean [1; 3]%R /\
    sumR y_pred = sumR [1; 3]%R.
Proof.
  apply (train_intercept_is_mean
           (fun _ => Ok (liftM 2 [[/ 2; 0]; [0; / 2]]%R))
           2 1 [[1]; [3]]%R [[/ 2; 0]; [0; / 2]]%R [1; 3]%R);
    [exact is_matrix_2_1 | lia | exact variance_2_1 | reflexivity
    | exact inverse_of_design_2_1 | reflexivity].
Defined.

Lemma train_r2_between_0_and_1_witness :
  exists (fit : fitted xreal) (r2 mse : R),
    train (fun _ => Ok (liftM 2 [[/ 2; 0]; [0; / 2]]%R))
      (liftM 1 [[1]; [3]]%R) (lift [1; 3]%R) = Ok fit /\
    fit_r2 fit = Fin r2 /\ (0 <= r2 <= 1)%R /\
    fit_mse fit = Fin mse /\ (0 <= mse <= population_variance [1; 3])%R.
Proof.
  apply (train_r2_between_0_and_1
           (fun _ => Ok (liftM 2 [[/ 2; 0]; [0; / 2]]%R))
           2 1 [[1]; [3]]%R [[/ 2; 0]; [0; / 2]]%R [1; 3]%R);
    [exact is_matrix_2_1 | lia | exact variance_2_1 | reflexivity
    | exact variance_1_3 | exact inverse_of_design_2_1 | reflexivity].
Defined.

(** ** Lines the loader does not read *)

Section LoaderLines.
Context {F : Type} `{FloatOps F}.
Variable py_float : string -> option F.

Lemma data_records_skip (h h' c : string) (before_c after_c : list string) :
  split_line c = [] ->
  data_records (h :: before_c ++ c :: after_c) =
  data_records (h' :: before_c ++ after_c).
Proof.
  intros B. unfold data_records. cbn [skipn].
  rewrite !map_app, !filter_app. cbn [map filter]. now rewrite B.
Qed.

(** X16: the header and the blank or comment-only lines carry no data.  Two
    files that differ only in their first line and in one line that is
    blank or holds nothing before its [#] load to the same result (the same
    dataset or the same exception). *)
Theorem load_ignores_header_and_comments (fs fs' : filesystem) (path : string)
  (h h' c : string) (before_c after_c : list string) :
  fs path = Some (h :: before_c ++ c :: after_c) ->
  fs' path = Some (h' :: before_c ++ after_c) ->
  split_line c = [] ->
  load py_float fs path = load py_float fs' path.
Proof.
  intros E E' B. unfold load, genfromtxt. rewrite E, E'.
  now rewrite (data_records_skip h h' c before_c after_c B).
Qed.

End LoaderLines.

Lemma load_ignores_header_and_comments_witness :
  load (decimal_float (F:=float))
    (fun _ => Some ("Size,Price" :: ["1,2"] ++ "  # checked" :: ["3,4"])%string)
    "a.csv"%string =
  load (decimal_float (F:=float))
    (fun _ => Some ("size,price" :: ["1,2"] ++ ["3,4"])%string)
    "a.csv"%string.
Proof.
  apply (load_ignores_header_and_comments decimal_float
           (fun _ => Some ("Size,Price" :: ["1,2"] ++ "  # checked" :: ["3,4"])%string)
           (fun _ => Some ("size,price" :: ["1,2"] ++ ["3,4"])%string)
           "a.csv"%string "Size,Price"%string "size,price"%string
           "  # checked"%string ["1,2"]%string ["3,4"]%string);
    reflexivity.
Defined.

(** The training cells in exact arithmetic on the features [[1], [3]] and
    the targets [1, 3], and the prediction cell on the second row. *)
Lemma predict_training_row_witness :
  exists fit : fitted xreal,
    train (fun _ => Ok (liftM 2 [[/ 2; 0]; [0; / 2]]%R))
      (liftM 1 [[1]; [3]]%R) (lift [1; 3]%R) = Ok fit /\
    predict (fit_mean fit) (fit_std fit) (fit_theta fit) (Matrix 1 [[Fin 3]])
    = Ok (nth 1 (fit_y_pred fit) NaN).
Proof.
  destruct (train_exact (fun _ => Ok (liftM 2 [[/ 2; 0]; [0; / 2]]%R))
              2 1 [[1]; [3]]%R [[/ 2; 0]; [0; / 2]]%R [1; 3]%R
              is_matrix_2_1 (Nat.lt_0_succ 1) variance_2_1 eq_refl
              (proj1 inverse_of_design_2_1) eq_refl)
    as [mse [r2 [_ [_ T]]]].
  eexists. split; [exact T|].
  apply (predict_training_row _ (liftM 1 [[1]; [3]]%R) (lift [1; 3]%R) _ 1 T).
  unfold nrows. simpl. lia.
Defined.

(** * Where binary64 departs from exact arithmetic

    The notebook computes in IEEE-754 double precision.  The evaluations
    below run the embedded code in the [binary64] instance; every sum in them
    has at most three terms and every product of a matrix product is exact or
    underflows to zero, so that the order of the additions plays no part. *)

Section ExactSide.
Local Open Scope R_scope.

(** In exact arithmetic the design matrix [[1, e], [1, -e]] has an invertible
    Gram matrix, whatever the nonzero [e]. *)
Lemma gram_invertible (e : R) :
  e <> 0 ->
  inverse_of 2 (gramR 2 [[1; e]; [1; - e]]) [[/ 2; 0]; [0; / (2 * (e * e))]].
Proof.
  intros He.
  unfold inverse_of, is_matrix, gramR, mmulR, transposeR, identityR, colR,
    dotR, sumR.
  cbn [seq map nth fold_right length zip_with Nat.eqb].
  repeat split; repeat constructor; repeat f_equal; field; exact He.
Qed.

(** In exact arithmetic the predictions [0, 0] explain nothing of the
    targets [a, -a]: R² is 0. *)
Lemma R2_spec_symmetric_targets (a : R) :
  a <> 0 -> R2_spec [a; - a] [0; 0] = 0.
Proof.
  intros Ha.
  unfold R2_spec, sum_sq_diff, sum_sq_dev, arithmetic_mean, sumR.
  cbn [zip_with map fold_right length INR]. field.
  intros Z.
  assert (Q : a * a = 0) by lra.
  apply Rmult_integral in Q. tauto.
Qed.

End ExactSide.

(** C1 as stated fails in binary64.  The design matrix
    [[1, 2^-600], [1, -2^-600]] has the invertible Gram matrix
    [[2, 0], [0, 2^-1199]] over the reals, but the code forms
    X^T @ X = [[2, 0], [0, 0]] (2^-1200 underflows), whose second row is
    zero: [np.linalg.inv] raises LinAlgError on it, and so does
    [normal_equation], which returns no coefficient vector. *)
Lemma normal_equation_singular_gram_counterexample :
  inverse_of 2 (gramR 2 [[1; (/ 2) ^ 600]; [1; - (/ 2) ^ 600]]%R)
    [[/ 2; 0]; [0; / (2 * ((/ 2) ^ 600 * (/ 2) ^ 600))]]%R /\
  matmul (transpose (Matrix 2 [[1; 0x1p-600]; [1; -0x1p-600]]%float))
    (Matrix 2 [[1; 0x1p-600]; [1; -0x1p-600]]%float)
  = Ok (Matrix 2 [[2; 0]; [0; 0]]%float) /\
  (forall (linalg_inv : matrix float -> result (matrix float)) (y : list float),
     linalg_inv (Matrix 2 [[2; 0]; [0; 0]]%float) = Raise LinAlgError ->
     normal_equation linalg_inv
       (Matrix 2 [[1; 0x1p-600]; [1; -0x1p-600]]%float) y
     = Raise LinAlgError).
Proof.
  split; [|split].
  - apply gram_invertible. apply pow_nonzero. lra.
  - vm_compute. reflexivity.
  - intros linalg_inv y E. unfold normal_equation.
    replace (matmul (transpose (Matrix 2 [[1; 0x1p-600]; [1; -0x1p-600]]%float))
               (Matrix 2 [[1; 0x1p-600]; [1; -0x1p-600]]%float))
      with (Ok (Matrix 2 [[2; 0]; [0; 0]]%float))
      by (vm_compute; reflexivity).
    cbn [bind]. now rewrite E.
Qed.

(** C2 as stated fails in binary64.  Every entry of the column is the double
    nearest to 0.1, so its arithmetic mean is that double and its population
    standard deviation is 0; [normalize] returns the mean one unit in the
    last place above it, the standard deviation 2^-56, and the entries -1.0. *)
Lemma normalize_rounded_mean_counterexample :
  normalize (Matrix 1 [[0x1.999999999999ap-4]; [0x1.999999999999ap-4];
                       [0x1.999999999999ap-4]]%float)
  = Ok (Matrix 1 [[-1]; [-1]; [-1]]%float,
        [0x1.999999999999bp-4]%float, [0x1p-56]%float) /\
  PrimFloat.eqb 0x1.999999999999bp-4 0x1.999999999999ap-4 = false /\
  PrimFloat.eqb 0x1p-56 0 = false.
Proof.
  repeat split; vm_compute; reflexivity.
Qed.

(** C3 as stated fails in binary64.  For the targets [2^700, -2^700] and the
    predictions [0, 0] the formulas give R² = 0 and MSE = 2^1400; the squares
    overflow, and the evaluator returns NaN for R² and infinity for the MSE. *)
Lemma evaluator_overflow_counterexample :
  R2_spec [2 ^ 700; - 2 ^ 700]%R [0; 0]%R = 0%R /\
  r2_score [0x1p700; -0x1p700]%float [0; 0]%float = Ok PrimFloat.nan /\
  mean_squared_error [0x1p700; -0x1p700]%float [0; 0]%float
  = Ok PrimFloat.infinity.
Proof.
  split; [|split].
  - apply R2_spec_symmetric_targets. apply pow_nonzero. lra.
  - vm_compute. reflexivity.
  - vm_compute. reflexivity.
Qed.

(** C9 as stated fails in binary64, beyond any rounding tolerance.  The
    column [1e16, 1e16 + 2] has variance 1 (the code computes 2, the mean
    being rounded to 1e16); the normalised column is [0, 2/sqrt 2], and
    [np.mean] and [np.std] of it are about 0.707 each, not 0 and 1. *)
Lemma normalize_large_offset_counterexample :
  normalize (Matrix 1 [[1e16]; [10000000000000002]]%float)
  = Ok (Matrix 1 [[0%float]; [PrimFloat.div 2 (PrimFloat.sqrt 2)]],
        [1e16%float], [PrimFloat.sqrt 2]) /\
  PrimFloat.ltb 0.5 (np_mean [0%float; PrimFloat.div 2 (PrimFloat.sqrt 2)]) = true /\
  PrimFloat.ltb (np_std [0%float; PrimFloat.div 2 (PrimFloat.sqrt 2)]) 0.75 = true.
Proof.
  repeat split; vm_compute; reflexivity.
Qed.
